(** * Clipper Catalog: a shallow embedding of the catalog engine

    The development follows [ClipperCatalog.tsx] (the revision with read
    state and multi-valued source properties): the path exclusion matcher,
    the front-matter extractor, the tag normalisers, the refresh pass, the
    query engine (sort, read-state filters, search) and the read-state
    checkbox handler.

    Modelling conventions.
    - A JavaScript string is a [string] of 8-bit characters.  The string
      primitives ([toLowerCase], [trim], [split], ...) are given on that
      representation; case mapping and white space outside the ASCII range
      are not modelled.
    - A front-matter record and the [urls] object are plain JavaScript
      objects: a finite map of their own properties ([gmap string FMValue])
      in front of [Object.prototype].  Reading [o[k]] ([getProperty]) finds
      the own property or else the member of [Object.prototype] of that
      name; writing [o[k] = v] ([setProperty]) creates or replaces the own
      property, except for the accessor [__proto__], which creates none.
    - A number is an integer ([Z]); only its truthiness is ever inspected.
    - An exception is the [None] of an [option]; the host application
      (vault, metadata cache, file manager) is an explicit state that is
      threaded through the handlers.  How the host reads a front-matter
      block out of a text and writes one back is left open: the read-state
      handler is given over any such pair of functions. *)

From Stdlib Require Import ZArith Ascii String Sorted.
From stdpp Require Import base option list gmap strings fin_maps.

Local Open Scope Z_scope.
#[local] Set Warnings "-clear-no-such-hyp".

(** ** JavaScript string primitives *)

Module JS.

(** [c.toLowerCase()] on one character. *)
Definition lowerChar (c : ascii) : ascii :=
  let n := nat_of_ascii c in
  if ((65 <=? n)%nat && (n <=? 90)%nat)%bool then ascii_of_nat (n + 32) else c.

(** [s.toLowerCase()]. *)
Fixpoint toLowerCase (s : string) : string :=
  match s with
  | EmptyString => EmptyString
  | String c r => String (lowerChar c) (toLowerCase r)
  end.

(** [s.startsWith(p)]. *)
Definition startsWith (s p : string) : bool := String.prefix p s.

(** [s.includes(t)]: [t] occurs in [s] at some position. *)
Fixpoint includes (s t : string) : bool :=
  String.prefix t s ||
  match s with
  | EmptyString => false
  | String _ r => includes r t
  end.

(** [s.slice(1)]. *)
Definition slice1 (s : string) : string :=
  match s with
  | EmptyString => EmptyString
  | String _ r => r
  end.

(** [s.trimStart()] and [s.trimEnd()], then [s.trim()]. *)
Fixpoint trimStart (s : string) : string :=
  match s with
  | EmptyString => EmptyString
  | String c r => if Ascii.is_space c then trimStart r else s
  end.

Fixpoint trimEnd (s : string) : string :=
  match s with
  | EmptyString => EmptyString
  | String c r =>
      match trimEnd r with
      | EmptyString => if Ascii.is_space c then EmptyString else String c EmptyString
      | r' => String c r'
      end
  end.

Definition trim (s : string) : string := trimEnd (trimStart s).

(** [s.split(sep)] for a one-character separator; the result always has
    at least one segment ([''.split('/')] is [['']]). *)
Fixpoint split (sep : ascii) (s : string) : list string :=
  match s with
  | EmptyString => [EmptyString]
  | String c r =>
      if Ascii.eqb c sep then EmptyString :: split sep r
      else match split sep r with
           | h :: t => String c h :: t
           | [] => [String c EmptyString]
           end
  end.

(** [s.replace(/\\/g, '/')]. *)
Fixpoint backslashesToSlashes (s : string) : string :=
  match s with
  | EmptyString => EmptyString
  | String c r =>
      String (if Ascii.eqb c "\"%char then "/"%char else c) (backslashesToSlashes r)
  end.

(** [s.replace(/\/$/, '')]: one slash at the very end is removed. *)
Fixpoint stripTrailingSlash (s : string) : string :=
  match s with
  | EmptyString => EmptyString
  | String c EmptyString => if Ascii.eqb c "/"%char then EmptyString else s
  | String c r => String c (stripTrailingSlash r)
  end.

(** [Boolean(s)] for a string. *)
Definition truthyString (s : string) : bool :=
  match s with EmptyString => false | _ => true end.

(** [[...new Set(l)]]: the first occurrence of every element, in order. *)
Fixpoint uniqueFrom (seen l : list string) : list string :=
  match l with
  | [] => []
  | x :: r =>
      if bool_decide (x ∈ seen) then uniqueFrom seen r
      else x :: uniqueFrom (x :: seen) r
  end.

Definition unique (l : list string) : list string := uniqueFrom [] l.

(** [[...l].sort(cmp)].  ECMAScript requires the sort to be stable; for a
    consistent comparator the result is the one of a stable insertion
    sort: [a] goes in front of the first [x] with [cmp a x <= 0]. *)
Section Sort.
Context {A : Type} (cmp : A → A → Z).

Fixpoint insertSorted (a : A) (l : list A) : list A :=
  match l with
  | [] => [a]
  | x :: r => if cmp a x <=? 0 then a :: x :: r else x :: insertSorted a r
  end.

Fixpoint sort (l : list A) : list A :=
  match l with
  | [] => []
  | a :: r => insertSorted a (sort r)
  end.

End Sort.

End JS.

(** ** 4.1 Path exclusion matcher *)

Section PathExclusion.

(** [advancedSettings.ignoredDirectories]. *)
Variable ignoredDirectories : list string.

(** The [for] loop over [i = 0 .. dirParts.length - 1]; [n] counts the
    iterations that remain.  [false] is the early [return false]; the
    length guard before the loop keeps both indices in range. *)
Fixpoint compareSegments (dirParts pathParts : list string) (i n : nat) : bool :=
  match n with
  | O => true
  | S n' =>
      match dirParts !! i, pathParts !! i with
      | Some d, Some p =>
          if negb (String.eqb (JS.toLowerCase d) (JS.toLowerCase p)) then false
          else compareSegments dirParts pathParts (S i) n'
      | _, _ => false
      end
  end.

(** The callback given to [some] in [isPathIgnored]. *)
Definition dirMatches (filePath dir : string) : bool :=
  let normalizedDir := JS.stripTrailingSlash (JS.backslashesToSlashes dir) in
  let normalizedPath := JS.backslashesToSlashes filePath in
  let dirParts := JS.split "/" normalizedDir in
  let pathParts := JS.split "/" normalizedPath in
  if (length pathParts <? length dirParts)%nat then false
  else if negb (compareSegments dirParts pathParts 0 (length dirParts)) then false
  else (Z.of_nat (length dirParts) =? Z.of_nat (length pathParts) - 1)
       || (Z.of_nat (length dirParts) =? Z.of_nat (length pathParts)).

Definition isPathIgnored (filePath : string) : bool :=
  existsb (dirMatches filePath) ignoredDirectories.

End PathExclusion.

(** The matcher as the specification words it: segments of the normalised
    rule and of the normalised path, compared declaratively. *)
Module PathSpec.

Definition ruleSegments (rule : string) : list string :=
  JS.split "/" (JS.stripTrailingSlash (JS.backslashesToSlashes rule)).

Definition pathSegments (path : string) : list string :=
  JS.split "/" (JS.backslashesToSlashes path).

(** Case-insensitive equality of two segments. *)
Definition sameSegment (a b : string) : Prop :=
  JS.toLowerCase a = JS.toLowerCase b.

(** Every rule segment equals the path segment at the same position. *)
Definition leadingSegmentsAgree (rule path : list string) : Prop :=
  ∀ i d, rule !! i = Some d → ∃ p, path !! i = Some p ∧ sameSegment d p.

Definition ruleMatches (path rule : string) : Prop :=
  leadingSegmentsAgree (ruleSegments rule) (pathSegments path) ∧
  (length (pathSegments path) = length (ruleSegments rule) ∨
   length (pathSegments path) = S (length (ruleSegments rule))).

Definition isExcluded (path : string) (rules : list string) : Prop :=
  ∃ rule, rule ∈ rules ∧ ruleMatches path rule.

End PathSpec.

(** ** 3. Data model *)

(** A front-matter value as the metadata cache hands it over. *)
#[local] Set Warnings "-register-all".
Inductive FMValue :=
| VNull
| VBool (b : bool)
| VNum (n : Z)
| VStr (s : string)
| VArr (items : list FMValue)
| VObj (fields : list (string * FMValue))
| VBuiltin (member : string).

(** [metadata.frontmatter]: the own properties of the object. *)
Abbreviation FrontMatter := (gmap string FMValue).

(** The names every plain object answers to without having them as own
    properties: the members of [Object.prototype]. *)
Definition objectPrototypeMembers : list string :=
  ["constructor"; "hasOwnProperty"; "isPrototypeOf"; "propertyIsEnumerable";
   "toLocaleString"; "toString"; "valueOf";
   "__defineGetter__"; "__defineSetter__"; "__lookupGetter__"; "__lookupSetter__";
   "__proto__"].

(** [o[k]]: the own property, or else the inherited member ([VBuiltin k]),
    or else [undefined] ([None]). *)
Definition getProperty (o : FrontMatter) (k : string) : option FMValue :=
  match o !! k with
  | Some v => Some v
  | None => if bool_decide (k ∈ objectPrototypeMembers) then Some (VBuiltin k) else None
  end.

(** [o[k] = v], as far as the own properties go: the assignment to
    [__proto__] runs the accessor of [Object.prototype] and creates no own
    property. *)
Definition setProperty (o : FrontMatter) (k : string) (v : FMValue) : FrontMatter :=
  if String.eqb k "__proto__" then o else <[k := v]> o.

(** An entry of [metadata.tags]: a bare string or an object with a [tag]
    field. *)
Inductive TagDescriptor :=
| TagString (s : string)
| TagObject (tag : string).

(** [CachedMetadata], the part the catalog reads. *)
Record CachedMetadata := {
  frontmatter : option FrontMatter;
  tags : option (list TagDescriptor)
}.

(** [TFile]; [parentPath] is [file.parent?.path]. *)
Record TFile := {
  filePath : string;
  basename : string;
  parentPath : option string;
  ctime : Z
}.

(** [interface Article].  Field names are global here, so [tags] is
    [allTags] (the name of the value it receives), [basename] is
    [articleBasename], and the path of a [TFile] is [filePath]. *)
Record Article := {
  title : string;
  urls : FrontMatter;
  path : string;
  date : Z;
  allTags : list string;
  frontmatterTags : list string;
  contentTags : list string;
  articleBasename : string;
  content : string;
  read : bool
}.

(** [plugin.settings], the fields the engine reads. *)
Record Settings := {
  sourcePropertyName : string;
  includeFrontmatterTags : bool;
  readPropertyName : string
}.

(** The repository as the engine sees it: the markdown files, the metadata
    cache, the text of every file ([vault.read] throws where there is
    none), and whether the repository rejects writes. *)
Record Vault := {
  markdownFiles : list TFile;
  fileCache : gmap string CachedMetadata;
  contents : gmap string string;
  writesFail : bool
}.

(** ** 4.2 Front-matter extractor *)

(** [if (value)]. *)
Definition truthy (v : FMValue) : bool :=
  match v with
  | VNull => false
  | VBool b => b
  | VNum n => negb (n =? 0)
  | VStr s => JS.truthyString s
  | VArr _ => true
  | VObj _ => true
  | VBuiltin _ => true
  end.

(** The same test on a property that may be absent ([undefined]). *)
Definition truthyProperty (o : option FMValue) : bool :=
  from_option truthy false o.

(** [typeof item === 'string' && item.trim() !== '']. *)
Definition isNonBlankString (item : FMValue) : bool :=
  match item with
  | VStr s => negb (String.eqb (JS.trim s) "")
  | _ => false
  end.

(** [sourcePropertyName.split(',').map(name => name.trim()).filter(Boolean)]. *)
Definition propertyNames (settings : Settings) : list string :=
  List.filter JS.truthyString (map JS.trim (JS.split "," (sourcePropertyName settings))).

(** One round of the loop over [propertyNames]. *)
Definition collectUrl (fm : FrontMatter) (urls : FrontMatter) (propName : string)
  : FrontMatter :=
  match getProperty fm propName with
  | Some value =>
      if truthy value then
        match value with
        | VArr items =>
            let filteredValue := List.filter isNonBlankString items in
            if (0 <? length filteredValue)%nat
            then setProperty urls propName (VArr filteredValue)
            else urls
        | _ => setProperty urls propName value
        end
      else urls
  | None => urls
  end.

Definition collectUrls (names : list string) (fm : FrontMatter) : FrontMatter :=
  foldl (collectUrl fm) ∅ names.

(** [metadata.frontmatter[plugin.settings.readPropertyName] === true]. *)
Definition readFlag (settings : Settings) (fm : FrontMatter) : bool :=
  match getProperty fm (readPropertyName settings) with
  | Some (VBool true) => true
  | _ => false
  end.

(** ** 4.3 Tag normaliser *)

(** [tag.startsWith('#') ? tag.slice(1) : tag]. *)
Definition stripHash (tag : string) : string :=
  if JS.startsWith tag "#" then JS.slice1 tag else tag.

(** An array entry used as a string: [tag.startsWith] throws on anything
    else. *)
Definition asString (v : FMValue) : option string :=
  match v with
  | VStr s => Some s
  | _ => None
  end.

(** [processFrontmatterTags]; [None] is the [TypeError] of calling [split]
    or [startsWith] on a value that has none.  [frontmatter.tags] is an own
    property or [undefined]: [Object.prototype] has no member [tags]. *)
Definition processFrontmatterTags (fm : FrontMatter) (settings : Settings)
  : option (list string) :=
  if negb (includeFrontmatterTags settings) || negb (truthyProperty (fm !! "tags"))
  then Some []
  else
    match fm !! "tags" with
    | Some (VArr items) =>
        tagList ← mapM asString items;
        Some (List.filter JS.truthyString (map stripHash tagList))
    | Some (VStr s) =>
        Some (List.filter JS.truthyString
                (map stripHash (map JS.trim (JS.split "," s))))
    | _ => None
    end.

(** [typeof tag === 'string' ? tag : tag.tag]. *)
Definition tagText (t : TagDescriptor) : string :=
  match t with
  | TagString s => s
  | TagObject s => s
  end.

(** [processContentTags]. *)
Definition processContentTags (tags : option (list TagDescriptor)) : list string :=
  match tags with
  | None => []
  | Some l => List.filter JS.truthyString (map stripHash (map tagText l))
  end.

(** ** 4.4 Refresh pass *)

Section Refresh.

Variable settings : Settings.
Variable ignoredDirectories : list string.
Variable vault : Vault.

(** The body of the loop over the files; [None] is a [continue] or an
    exception caught by the inner [try]. *)
Definition processFile (file : TFile) : option Article :=
  if isPathIgnored ignoredDirectories (default "" (parentPath file)) then None
  else
    metadata ← fileCache vault !! filePath file;
    fm ← frontmatter metadata;
    let urls := collectUrls (propertyNames settings) fm in
    let read := readFlag settings fm in
    if (0 <? size urls)%nat then
      content ← contents vault !! filePath file;
      frontmatterTags ← processFrontmatterTags fm settings;
      let contentTags := processContentTags (tags metadata) in
      let allTags := JS.unique (frontmatterTags ++ contentTags) in
      Some {| title := basename file;
              urls := urls;
              path := filePath file;
              date := ctime file;
              allTags := allTags;
              frontmatterTags := frontmatterTags;
              contentTags := contentTags;
              articleBasename := basename file;
              content := content;
              read := read |}
    else None.

(** The catalog handed to [setArticles]. *)
Definition loadArticles : list Article :=
  omap processFile (markdownFiles vault).

End Refresh.

(** ** 4.5 Query engine *)

(** The keys the column headers pass to [handleSort]. *)
Inductive SortKey := KeyTitle | KeyDate | KeyPath | KeyRead.

Inductive Direction := Asc | Desc.

Record SortConfig := {
  key : SortKey;
  direction : Direction
}.

(** Sorting by the read column. *)
Definition byRead (d : Direction) : SortConfig := {| key := KeyRead; direction := d |}.

Section Query.

(** [String.prototype.localeCompare] of the host locale. *)
Variable localeCompare : string → string → Z.

Variable sortConfig : SortConfig.

(** [String(a[sortConfig.key])] for the two textual keys. *)
Definition keyText (a : Article) : string :=
  match key sortConfig with
  | KeyPath => path a
  | _ => title a
  end.

(** The comparator given to [sort]. *)
Definition compareArticles (a b : Article) : Z :=
  match key sortConfig with
  | KeyDate =>
      match direction sortConfig with
      | Asc => date a - date b
      | Desc => date b - date a
      end
  | KeyRead =>
      match direction sortConfig with
      | Asc => if Bool.eqb (read a) (read b) then 0 else if read a then -1 else 1
      | Desc => if Bool.eqb (read a) (read b) then 0 else if read a then 1 else -1
      end
  | _ =>
      let aValue := JS.toLowerCase (keyText a) in
      let bValue := JS.toLowerCase (keyText b) in
      match direction sortConfig with
      | Asc => localeCompare aValue bValue
      | Desc => localeCompare bValue aValue
      end
  end.

Definition sortedArticles (articles : list Article) : list Article :=
  JS.sort compareArticles articles.

Variable hideCompleted showOnlyCompleted : bool.
Variable searchTerm : string.

(** The search disjunction at the end of the filter callback. *)
Definition matchesSearch (article : Article) : bool :=
  JS.includes (JS.toLowerCase (title article)) (JS.toLowerCase searchTerm)
  || existsb (λ tag, JS.includes (JS.toLowerCase tag) (JS.toLowerCase searchTerm))
       (allTags article)
  || (JS.startsWith searchTerm "#"
      && existsb (λ tag, String.eqb (JS.toLowerCase tag)
                                     (JS.toLowerCase (JS.slice1 searchTerm)))
           (allTags article)).

(** The callback given to [filter]. *)
Definition keepArticle (article : Article) : bool :=
  if hideCompleted && read article then false
  else if showOnlyCompleted && negb (read article) then false
  else matchesSearch article.

Definition filteredArticles (articles : list Article) : list Article :=
  List.filter keepArticle (sortedArticles articles).

End Query.

(** *** The two read-state toggles *)

Record Toggles := {
  hideCompletedState : bool;
  showOnlyCompletedState : bool
}.

(** [useState(false)] twice. *)
Definition initialToggles : Toggles :=
  {| hideCompletedState := false; showOnlyCompletedState := false |}.

Inductive ToggleClick := ClickHide | ClickShowOnly.

(** The two [onClick] handlers of the settings header. *)
Definition click (t : Toggles) (c : ToggleClick) : Toggles :=
  match c with
  | ClickHide =>
      {| hideCompletedState := negb (hideCompletedState t);
         showOnlyCompletedState :=
           if showOnlyCompletedState t then false else showOnlyCompletedState t |}
  | ClickShowOnly =>
      {| hideCompletedState :=
           if hideCompletedState t then false else hideCompletedState t;
         showOnlyCompletedState := negb (showOnlyCompletedState t) |}
  end.

Definition clicks (cs : list ToggleClick) : Toggles := foldl click initialToggles cs.

(** ** 4.6 Read-state mutator *)

(** What a run of the checkbox handler does, in order. *)
Inductive Event :=
| EvSetArticles (snapshot : list Article)
| EvRead (file : string)
| EvModify (file newContent : string)
| EvProcessFrontMatter (file : string)
| EvConsoleError.

(** The component state ([articles]), the repository and the trace. *)
Record AppState := {
  articles : list Article;
  appVault : Vault;
  trace : list Event
}.

(** A handler step: it may throw ([None]) and it changes the state. *)
Definition Handler (A : Type) : Type := AppState → option A * AppState.

#[local] Instance handler_ret : MRet Handler := λ A (a : A) st, (Some a, st).














Section ReadState.

(** The host's front-matter codec: [parseFrontMatter] reads a text as the
    record of its front-matter block and the body below it,
    [writeFrontMatter] puts a record and a body together as one text. *)
Variable parseFrontMatter : string → FrontMatter * string.
Variable writeFrontMatter : FrontMatter → string → string.




End ReadState.

(** ** The specification's wording of the extractor, the normaliser and
    the search, for comparison with the code *)

Module ExtractSpec.

(** "a non-empty value, after trimming / array-filtering". *)
Definition nonEmptyValue (v : FMValue) : bool :=
  match v with
  | VStr s => negb (String.eqb (JS.trim s) "")
  | VArr items => existsb isNonBlankString items
  | other => truthy other
  end.

Definition hasSourceValue (names : list string) (fm : FrontMatter) : Prop :=
  ∃ p v, p ∈ names ∧ fm !! p = Some v ∧ nonEmptyValue v = true.

(** "not path-excluded, has a front-matter block, and at least one
    configured source property holds a non-empty value". *)
Definition qualifies (settings : Settings) (ignored : list string) (vault : Vault)
  (file : TFile) : Prop :=
  isPathIgnored ignored (default "" (parentPath file)) = false ∧
  ∃ md fm, fileCache vault !! filePath file = Some md ∧ frontmatter md = Some fm ∧
           hasSourceValue (propertyNames settings) fm.

End ExtractSpec.

Module TagSpec.

(** "trimmed, empties removed, deduplicated". *)
Definition cleanTags (l : list string) : Prop :=
  Forall (λ t, JS.trim t = t ∧ t ≠ "") l ∧ NoDup l.

(** "already in normalized form": clean and without a leading '#'. *)
Definition normalized (l : list string) : Prop :=
  Forall (λ t, JS.startsWith t "#" = false) l ∧ cleanTags l.

End TagSpec.

Module SearchSpec.

(** "having exactly the tag [name] (case-insensitive)". *)
Definition hasExactTag (name : string) (a : Article) : Prop :=
  ∃ tag, tag ∈ allTags a ∧ JS.toLowerCase tag = JS.toLowerCase name.

(** [s] contains [t] without regard to case. *)
Definition containsCI (s t : string) : Prop :=
  JS.includes (JS.toLowerCase s) (JS.toLowerCase t) = true.

(** No '#' occurs in [s]. *)
Definition hashFree (s : string) : Prop := JS.includes s "#" = false.

End SearchSpec.

(** ** What the extractor keeps for one property *)

(** Whether the loop stores something under a configured name whose
    front-matter value is [v], and what it stores. *)
Definition keptValue (v : FMValue) : bool :=
  truthy v &&
  match v with
  | VArr items => existsb isNonBlankString items
  | _ => true
  end.

Definition storedValue (v : FMValue) : option FMValue :=
  if truthy v then
    match v with
    | VArr items =>
        match List.filter isNonBlankString items with
        | [] => None
        | kept => Some (VArr kept)
        end
    | _ => Some v
    end
  else None.

(** ** Scenarios *)

Module Scenario.

Definition settings : Settings :=
  {| sourcePropertyName := "url,link";
     includeFrontmatterTags := true;
     readPropertyName := "read" |}.

Definition sourceSettings : Settings :=
  {| sourcePropertyName := "source";
     includeFrontmatterTags := true;
     readPropertyName := "read" |}.

Definition clipFile : TFile :=
  {| filePath := "clips/a.md"; basename := "a"; parentPath := Some "clips"; ctime := 1700 |}.


(** [{source: "   "}]: the only source value is blank. *)
Definition blankSource : FrontMatter := <["source" := VStr "   "]> ∅.

(** [{source: "https://a.com/x", tags: "#news, #ai"}]. *)
Definition newsClip : FrontMatter :=
  <["source" := VStr "https://a.com/x"]> (<["tags" := VStr "#news, #ai"]> ∅).

(** [{tags: ["a", "a"]}], [{tags: [" a "]}] and [{tags: "# a"}]. *)
Definition repeatedTags : FrontMatter := <["tags" := VArr [VStr "a"; VStr "a"]]> ∅.
Definition paddedTag : FrontMatter := <["tags" := VArr [VStr " a "]]> ∅.
Definition hashThenBlank : FrontMatter := <["tags" := VStr "# a"]> ∅.

Definition vaultOf (fm : FrontMatter) (failing : bool) : Vault :=
  {| markdownFiles := [clipFile];
     fileCache := <["clips/a.md" := {| frontmatter := Some fm; tags := None |}]> ∅;
     contents := <["clips/a.md" := "body"]> ∅;
     writesFail := failing |}.

(** A file without a front-matter block. *)
Definition bareVault (failing : bool) : Vault :=
  {| markdownFiles := [clipFile];
     fileCache := <["clips/a.md" := {| frontmatter := None; tags := None |}]> ∅;
     contents := <["clips/a.md" := "body"]> ∅;
     writesFail := failing |}.

Definition article (t : string) (ts : list string) (r : bool) : Article :=
  {| title := t; urls := <["source" := VStr "https://a.com/x"]> ∅;
     path := "clips/a.md"; date := 1700; allTags := ts; frontmatterTags := ts;
     contentTags := []; articleBasename := t; content := "body"; read := r |}.

Definition byDateDesc : SortConfig := {| key := KeyDate; direction := Desc |}.

Definition codeUnitCompare (a b : string) : Z :=
  match String.compare a b with
  | Lt => -1
  | Eq => 0
  | Gt => 1
  end.


End Scenario.

(** ** Further parts of the component *)

(** *** Editing the exclusion list *)

(** [interface AdvancedSettings]. *)
Record AdvancedSettings := {
  ignoredDirectories : list string;
  isExpanded : bool
}.

(** The panel state the exclusion handlers work on: [advancedSettings] and
    the text of the input box, [newDirectory]. *)
Record PanelState := {
  advancedSettings : AdvancedSettings;
  newDirectory : string
}.

(** [newDirectory.split(',').map(dir => dir.trim()).filter(dir => dir.length > 0)]. *)
Definition directoriesToAdd (input : string) : list string :=
  List.filter (λ dir, (0 <? String.length dir)%nat) (map JS.trim (JS.split "," input)).

(** The body of the [forEach]: [if (!updatedDirectories.includes(dir))
    updatedDirectories.push(dir)]. *)
Definition pushIfNew (updatedDirectories : list string) (dir : string) : list string :=
  if bool_decide (dir ∈ updatedDirectories) then updatedDirectories
  else updatedDirectories ++ [dir].

(** [handleAddDirectory]. *)
Definition handleAddDirectory (st : PanelState) : PanelState :=
  if negb (JS.truthyString (JS.trim (newDirectory st))) then st
  else
    let toAdd := directoriesToAdd (newDirectory st) in
    if (length toAdd =? 0)%nat then st
    else
      let prev := advancedSettings st in
      {| advancedSettings :=
           {| ignoredDirectories := foldl pushIfNew (ignoredDirectories prev) toAdd;
              isExpanded := isExpanded prev |};
         newDirectory := "" |}.

(** [handleRemoveDirectory(dir)]. *)
Definition handleRemoveDirectory (dir : string) (st : PanelState) : PanelState :=
  let prev := advancedSettings st in
  {| advancedSettings :=
       {| ignoredDirectories :=
            List.filter (λ d, negb (String.eqb d dir)) (ignoredDirectories prev);
          isExpanded := isExpanded prev |};
     newDirectory := newDirectory st |}.

(** [handleClearAllDirectories]. *)
Definition handleClearAllDirectories (st : PanelState) : PanelState :=
  let prev := advancedSettings st in
  {| advancedSettings := {| ignoredDirectories := []; isExpanded := isExpanded prev |};
     newDirectory := newDirectory st |}.

(** [setNewDirectory(e.target.value)], the [onChange] of the input box. *)
Definition typeDirectory (input : string) (st : PanelState) : PanelState :=
  {| advancedSettings := advancedSettings st; newDirectory := input |}.

(** A path and a rule as the matcher reads them: slashes for backslashes,
    lower case. *)
Definition pathNormalForm (s : string) : string :=
  JS.toLowerCase (JS.backslashesToSlashes s).

(** No '/' and no '\' in [s]. *)
Definition separatorFree (s : string) : Prop :=
  JS.includes s "/" = false ∧ JS.includes s "\" = false.

(** *** The sort header *)

Definition sortKeyEqb (a b : SortKey) : bool :=
  match a, b with
  | KeyTitle, KeyTitle | KeyDate, KeyDate | KeyPath, KeyPath | KeyRead, KeyRead => true
  | _, _ => false
  end.

(** [useState<SortConfig>({ key: 'date', direction: 'desc' })]. *)
Definition initialSortConfig : SortConfig := {| key := KeyDate; direction := Desc |}.

(** [handleSort(key)]. *)
Definition handleSort (k : SortKey) (prevConfig : SortConfig) : SortConfig :=
  {| key := k;
     direction :=
       if sortKeyEqb (key prevConfig) k
          && match direction prevConfig with Asc => true | Desc => false end
       then Desc else Asc |}.

(** Sorting by the date column. *)
Definition byDate (d : Direction) : SortConfig := {| key := KeyDate; direction := d |}.

(** *** The counts of the header *)

(** [articles.filter(article => article.read).length]. *)
Definition completedCount (articles : list Article) : Z :=
  Z.of_nat (length (List.filter read articles)).

(** [articles.length - filteredArticles.length], shown as the number of
    "unchecked notes hidden" while "show only" is on. *)
Definition hiddenCount (articles filtered : list Article) : Z :=
  Z.of_nat (length articles) - Z.of_nat (length filtered).

(** *** The folder shown in the path column *)

(** [l.join(sep)] for a one-character separator. *)
Fixpoint join (sep : ascii) (l : list string) : string :=
  match l with
  | [] => ""
  | [s] => s
  | s :: r => s +:+ String sep (join sep r)
  end.

(** [article.path.split('/').slice(0, -1).join('/') || '/']. *)
Definition folderText (path : string) : string :=
  let joined := join "/" (removelast (JS.split "/" path)) in
  if JS.truthyString joined then joined else "/".

(** *** Tags values the normaliser throws on *)

(** A truthy [tags] value that is neither a string nor an array of
    strings. *)
Definition malformedTags (v : FMValue) : bool :=
  truthy v &&
  match v with
  | VStr _ => false
  | VArr items => existsb (λ item, match item with VStr _ => false | _ => true end) items
  | _ => true
  end.

(** *** More scenarios *)

Module Scenario2.

Definition panel (dirs : list string) (input : string) : PanelState :=
  {| advancedSettings := {| ignoredDirectories := dirs; isExpanded := true |};
     newDirectory := input |}.

(** [{source: "https://a.com/x", tags: 2024}]. *)
Definition numericTags : FrontMatter :=
  <["source" := VStr "https://a.com/x"]> (<["tags" := VNum 2024]> ∅).











Definition constructorSettings : Settings :=
  {| sourcePropertyName := "source, constructor";
     includeFrontmatterTags := true;
     readPropertyName := "read" |}.

End Scenario2.
(** *** Properties of the matcher *)

Lemma split_nonempty sep s : (0 < length (JS.split sep s))%nat.
Proof.
  induction s as [|c r IH]; simpl; [lia|].
  destruct (Ascii.eqb c sep); simpl; [lia|].
  destruct (JS.split sep r); simpl; lia.
Qed.

Lemma compareSegments_true dirParts pathParts i n :
  (i + n = length dirParts)%nat →
  compareSegments dirParts pathParts i n = true ↔
  ∀ j d, (i ≤ j)%nat → dirParts !! j = Some d →
         ∃ p, pathParts !! j = Some p ∧ PathSpec.sameSegment d p.
Proof.
  revert i. induction n as [|n IH]; intros i Hlen; simpl.
  - split; [|done]. intros _ j d Hj Hd.
    apply lookup_lt_Some in Hd. lia.
  - destruct (dirParts !! i) as [d|] eqn:Hd; cycle 1.
    { apply lookup_ge_None in Hd. lia. }
    destruct (pathParts !! i) as [p|] eqn:Hp.
    + destruct (String.eqb_spec (JS.toLowerCase d) (JS.toLowerCase p)) as [Heq|Hne]; simpl.
      * rewrite IH by lia. split.
        -- intros H j d' Hj Hd'. destruct (decide (j = i)) as [->|Hji].
           ++ rewrite Hd in Hd'. injection Hd' as <-. eauto.
           ++ apply H; [lia|done].
        -- intros H j d' Hj Hd'. apply H; [lia|done].
      * split; [done|]. intros H.
        destruct (H i d) as (p' & Hp' & Hs); [lia|done|].
        rewrite Hp in Hp'. injection Hp' as <-. done.
    + split; [done|]. intros H.
      destruct (H i d) as (p' & Hp' & _); [lia|done|]. congruence.
Qed.

Lemma dirMatches_spec filePath dir :
  dirMatches filePath dir = true ↔ PathSpec.ruleMatches filePath dir.
Proof.
  unfold dirMatches, PathSpec.ruleMatches, PathSpec.leadingSegmentsAgree.
  fold (PathSpec.ruleSegments dir). fold (PathSpec.pathSegments filePath).
  set (ds := PathSpec.ruleSegments dir). set (ps := PathSpec.pathSegments filePath).
  assert (0 < length ps)%nat as Hps by apply split_nonempty.
  destruct (Nat.ltb_spec (length ps) (length ds)) as [Hlt|Hge].
  { split; [done|]. intros [_ [?|?]]; lia. }
  destruct (compareSegments ds ps 0 (length ds)) eqn:Hcmp; simpl.
  - pose proof (proj1 (compareSegments_true ds ps 0 (length ds) eq_refl) Hcmp) as Hall.
    rewrite orb_true_iff, !Z.eqb_eq. split.
    + intros Hl. split; [|lia]. intros i d Hd. apply Hall; [lia|done].
    + intros [_ Hl]. lia.
  - split; [done|]. intros [Hagree _].
    assert (compareSegments ds ps 0 (length ds) = true); [|congruence].
    apply compareSegments_true; [done|]. intros j d _ Hd. by apply Hagree.
Qed.

(** C2: [isPathIgnored] returns true exactly when some rule, normalised
    (backslashes to slashes, one trailing slash removed) and split at the
    slashes, agrees segment by segment and without regard to case with the
    leading segments of the path, and the path has as many segments as the
    rule or exactly one more; so a rule never matches a path that is two or
    more segments longer than it. *)
Theorem isPathIgnored_iff_rule_matches (rules : list string) (path : string) :
  (isPathIgnored rules path = true ↔ PathSpec.isExcluded path rules) ∧
  (∀ rule,
     (length (PathSpec.ruleSegments rule) + 2 ≤ length (PathSpec.pathSegments path))%nat →
     dirMatches path rule = false).
Proof.
  split.
  - unfold isPathIgnored, PathSpec.isExcluded. rewrite existsb_exists. split.
    + intros (rule & Hin & Hm). exists rule. split.
      * by apply list_elem_of_In.
      * by apply dirMatches_spec.
    + intros (rule & Hin & Hm). exists rule. split.
      * by apply list_elem_of_In.
      * by apply dirMatches_spec.
  - intros rule Hdeep. apply not_true_is_false. intros Hm.
    apply dirMatches_spec in Hm as [_ [Hl|Hl]]; lia.
Qed.

Lemma dirMatches_two_segments_deeper :
  dirMatches "work/expenses/2024/q1" "work/expenses" = false.
Proof.
  apply (proj2 (isPathIgnored_iff_rule_matches ["work/expenses"] "work/expenses/2024/q1")).
  vm_compute. lia.
Defined.

Example isPathIgnored_exact :
  isPathIgnored ["work/expenses"] "work/expenses" = true.
Proof. reflexivity. Qed.

Example isPathIgnored_child_case_insensitive :
  isPathIgnored ["Work\Expenses/"] "work/expenses/2024" = true.
Proof. reflexivity. Qed.

Example isPathIgnored_grandchild :
  isPathIgnored ["work/expenses"] "work/expenses/2024/q1" = false.
Proof. reflexivity. Qed.

(** *** Properties of the extractor *)

Lemma getProperty_own (o : FrontMatter) k :
  k ∉ objectPrototypeMembers → getProperty o k = o !! k.
Proof.
  intros Hk. unfold getProperty. destruct (o !! k); [done|].
  by rewrite bool_decide_eq_false_2.
Qed.

Lemma getProperty_lookup (o : FrontMatter) k v :
  o !! k = Some v → getProperty o k = Some v.
Proof. intros Hv. unfold getProperty. by rewrite Hv. Qed.

Lemma setProperty_lookup (o : FrontMatter) k v q :
  setProperty o k v !! q =
  if decide (k = q ∧ k ≠ "__proto__") then Some v else o !! q.
Proof.
  unfold setProperty. destruct (String.eqb_spec k "__proto__") as [->|Hk].
  - case_decide as H; [by destruct H|done].
  - case_decide as H.
    + destruct H as [-> _]. by rewrite lookup_insert_eq.
    + rewrite lookup_insert_ne; [done|]. intros ->. by apply H.
Qed.

Lemma collectUrl_lookup fm (acc : FrontMatter) p q :
  collectUrl fm acc p !! q =
  if decide (p = q ∧ p ≠ "__proto__") then
    match getProperty fm p ≫= storedValue with
    | Some v => Some v
    | None => acc !! q
    end
  else acc !! q.
Proof.
  unfold collectUrl, storedValue.
  destruct (getProperty fm p) as [v|] eqn:Hv; simpl; [|by case_decide].
  destruct (truthy v) eqn:Ht; [|by case_decide].
  destruct v; try (by rewrite setProperty_lookup; case_decide).
  destruct (List.filter isNonBlankString items); simpl; [by case_decide|].
  by rewrite setProperty_lookup; case_decide.
Qed.

Lemma foldl_collectUrl_lookup fm names (acc : FrontMatter) q :
  foldl (collectUrl fm) acc names !! q =
  if bool_decide (q ∈ names ∧ q ≠ "__proto__") then
    match getProperty fm q ≫= storedValue with
    | Some v => Some v
    | None => acc !! q
    end
  else acc !! q.
Proof.
  revert acc. induction names as [|p names IH]; intros acc.
  - case_bool_decide as Hin; [|done]. destruct Hin as [Hin _].
    by apply elem_of_nil in Hin.
  - cbn [foldl]. rewrite IH, collectUrl_lookup.
    destruct (decide (q = "__proto__")) as [Hq|Hq].
    { rewrite !bool_decide_eq_false_2 by naive_solver.
      by rewrite decide_False by naive_solver. }
    destruct (decide (p = q)) as [->|Hne].
    + rewrite (bool_decide_eq_true_2 (q ∈ q :: names ∧ _))
        by (split; [apply list_elem_of_here|done]).
      rewrite decide_True by done.
      case_bool_decide; by destruct (getProperty fm q ≫= storedValue).
    + rewrite decide_False by naive_solver.
      case_bool_decide as Hin.
      * rewrite bool_decide_eq_true_2; [done|].
        split; [apply list_elem_of_further|]; naive_solver.
      * rewrite bool_decide_eq_false_2; [done|].
        intros [[?|?]%elem_of_cons ?]; naive_solver.
Qed.

Lemma collectUrls_lookup names fm q :
  collectUrls names fm !! q =
  if bool_decide (q ∈ names ∧ q ≠ "__proto__")
  then getProperty fm q ≫= storedValue else None.
Proof.
  unfold collectUrls. rewrite foldl_collectUrl_lookup, lookup_empty.
  case_bool_decide; [|done]. by destruct (getProperty fm q ≫= storedValue).
Qed.

Lemma filter_nonempty_existsb {A} (f : A → bool) (l : list A) :
  List.filter f l ≠ [] ↔ existsb f l = true.
Proof.
  induction l as [|x l IH]; simpl; [done|].
  destruct (f x); simpl; [done|]. apply IH.
Qed.

Lemma storedValue_is_Some v : is_Some (storedValue v) ↔ keptValue v = true.
Proof.
  unfold storedValue, keptValue.
  destruct (truthy v); simpl; [|by split; [intros [? ?]|]].
  destruct v; try (split; [done|eauto]).
  rewrite <- filter_nonempty_existsb.
  destruct (List.filter isNonBlankString items).
  - split; [by intros [? ?]|done].
  - split; [done|eauto].
Qed.

Lemma collectUrls_nonempty names fm :
  (0 <? size (collectUrls names fm))%nat = true ↔
  ∃ p v, p ∈ names ∧ p ≠ "__proto__" ∧ getProperty fm p = Some v ∧ keptValue v = true.
Proof.
  rewrite Nat.ltb_lt. split.
  - intros Hsize.
    destruct (map_choose (collectUrls names fm)) as (p & w & Hp).
    { intros Hempty. rewrite Hempty, map_size_empty in Hsize. lia. }
    rewrite collectUrls_lookup in Hp. case_bool_decide as Hin; [|done].
    destruct Hin as [Hin Hproto].
    destruct (getProperty fm p) as [v|] eqn:Hv; [|done]. simpl in Hp.
    exists p, v. split_and!; [done..|]. apply storedValue_is_Some. eauto.
  - intros (p & v & Hin & Hproto & Hv & Hkept).
    apply storedValue_is_Some in Hkept as [w Hw].
    assert (collectUrls names fm !! p = Some w) as Hp.
    { rewrite collectUrls_lookup, bool_decide_eq_true_2, Hv by done. done. }
    destruct (decide (size (collectUrls names fm) = 0)%nat) as [Hz|]; [|lia].
    apply map_size_empty_iff in Hz. rewrite Hz, lookup_empty in Hp. done.
Qed.

Lemma processFile_is_Some settings ignored vault file :
  is_Some (processFile settings ignored vault file) ↔
  isPathIgnored ignored (default "" (parentPath file)) = false ∧
  ∃ md fm, fileCache vault !! filePath file = Some md ∧ frontmatter md = Some fm ∧
    (∃ p v, p ∈ propertyNames settings ∧ p ≠ "__proto__" ∧
            getProperty fm p = Some v ∧ keptValue v = true) ∧
    is_Some (contents vault !! filePath file) ∧
    is_Some (processFrontmatterTags fm settings).
Proof.
  unfold processFile.
  destruct (isPathIgnored ignored (default "" (parentPath file))).
  { split; [by intros [? ?]|by intros [? _]]. }
  destruct (fileCache vault !! filePath file) as [md|] eqn:Hmd; simpl; cycle 1.
  { split; [by intros [? ?]|]. by intros (_ & ? & ? & ? & _). }
  destruct (frontmatter md) as [fm|] eqn:Hfm; simpl; cycle 1.
  { split; [by intros [? ?]|]. intros (_ & ? & ? & ? & ? & _). congruence. }
  pose proof (collectUrls_nonempty (propertyNames settings) fm) as Hne.
  destruct (0 <? size (collectUrls (propertyNames settings) fm))%nat; cycle 1.
  { split; [by intros [? ?]|]. intros (_ & md' & fm' & ? & ? & Hk & _).
    assert (fm' = fm) as -> by congruence. apply Hne in Hk. done. }
  destruct (contents vault !! filePath file) as [c|]; simpl; cycle 1.
  { split; [by intros [? ?]|]. intros (_ & ? & ? & _ & _ & _ & [? ?] & _). done. }
  destruct (processFrontmatterTags fm settings) as [ts|] eqn:Hts; simpl; cycle 1.
  { split; [by intros [? ?]|]. intros (_ & md' & fm' & ? & ? & _ & _ & [? Hsome]).
    assert (fm' = fm) as -> by congruence. congruence. }
  split; [|eauto]. intros _. split; [done|].
  exists md, fm. split_and!; eauto. by apply Hne.
Qed.

(** C1 (as the code has it), for configured source names none of which is
    the name of a member of [Object.prototype]: a refresh pass yields
    exactly the records of the scanned documents, and a document yields a
    record if and only if its parent directory is not excluded, it has a
    front-matter block, some configured source property holds a truthy
    scalar (stored without trimming) or an array with an entry that is a
    non-blank string, and neither reading its text nor normalising its
    front-matter tags throws.  What is kept differs from "non-empty after
    trimming" only in scalar strings that consist of white space. *)
Theorem loadArticles_record_iff settings ignored vault :
  Forall (λ name, name ∉ objectPrototypeMembers) (propertyNames settings) →
  (∀ a, a ∈ loadArticles settings ignored vault ↔
        ∃ file, file ∈ markdownFiles vault ∧
                processFile settings ignored vault file = Some a) ∧
  (∀ file, is_Some (processFile settings ignored vault file) ↔
     isPathIgnored ignored (default "" (parentPath file)) = false ∧
     ∃ md fm, fileCache vault !! filePath file = Some md ∧ frontmatter md = Some fm ∧
       (∃ p v, p ∈ propertyNames settings ∧ fm !! p = Some v ∧ keptValue v = true) ∧
       is_Some (contents vault !! filePath file) ∧
       is_Some (processFrontmatterTags fm settings)) ∧
  (∀ v, keptValue v = true ↔
        ExtractSpec.nonEmptyValue v = true ∨
        ∃ s, v = VStr s ∧ s ≠ "" ∧ JS.trim s = "").
Proof.
  intros Hnames. rewrite Forall_forall in Hnames. split_and!.
  - intros a. unfold loadArticles. apply list_elem_of_omap.
  - intros file. rewrite processFile_is_Some.
    apply and_iff_compat_l.
    split; intros (md & fm & Hmd & Hfm & (p & v & Hp & Hrest) & Hc & Ht);
      exists md, fm; (split_and!; [done|done| |done|done]); exists p, v.
    + destruct Hrest as (_ & Hv & Hk). rewrite getProperty_own in Hv by auto. done.
    + destruct Hrest as [Hv Hk]. split_and!; [done| |by apply getProperty_lookup|done].
      intros ->. apply (Hnames _ Hp). set_solver.
  - intros v. unfold keptValue, ExtractSpec.nonEmptyValue.
    destruct v as [|b|n|s|items|fields|member]; simpl.
    + split; [done|]. intros [?|(? & ? & _)]; done.
    + rewrite andb_true_r. split; [by left|]. intros [?|(? & ? & _)]; done.
    + rewrite andb_true_r. split; [by left|]. intros [?|(? & ? & _)]; done.
    + rewrite andb_true_r. destruct s as [|c s].
      * split; [done|]. intros [?|(? & [= <-] & ? & _)]; done.
      * simpl JS.truthyString.
        destruct (String.eqb_spec (JS.trim (String c s)) "") as [Ht|Ht]; simpl.
        -- split; [|done]. intros _. right. eauto.
        -- split; [by left|done].
    + split; [by left|]. intros [?|(? & ? & _)]; done.
    + split; [by left|]. intros [?|(? & ? & _)]; done.
    + split; [by left|]. intros [?|(? & ? & _)]; done.
Qed.

Lemma loadArticles_news_scenario :
  is_Some (processFile Scenario.sourceSettings []
             (Scenario.vaultOf Scenario.newsClip false) Scenario.clipFile).
Proof.
  refine (proj2 (proj1 (proj2 (loadArticles_record_iff Scenario.sourceSettings []
                                 (Scenario.vaultOf Scenario.newsClip false) _))
                   Scenario.clipFile) _).
  - apply (bool_decide_unpack _). by vm_compute.
  - split; [reflexivity|].
    exists {| frontmatter := Some Scenario.newsClip; tags := None |}, Scenario.newsClip.
    split_and!; [reflexivity|reflexivity| |by eexists|by eexists].
    exists "source", (VStr "https://a.com/x").
    split_and!; [apply list_elem_of_here|reflexivity|reflexivity].
Defined.

(** C1 (as stated) fails: the document whose only source value is the
    scalar of three spaces yields a record. *)
Lemma blank_scalar_source_yields_record :
  is_Some (processFile Scenario.sourceSettings []
             (Scenario.vaultOf Scenario.blankSource false) Scenario.clipFile) ∧
  ¬ ExtractSpec.qualifies Scenario.sourceSettings []
      (Scenario.vaultOf Scenario.blankSource false) Scenario.clipFile.
Proof.
  split.
  - vm_compute. eauto.
  - intros (_ & md & fm & Hmd & Hfm & p & v & Hp & Hv & Hne).
    vm_compute in Hmd. injection Hmd as <-. simpl in Hfm. injection Hfm as <-.
    change (propertyNames Scenario.sourceSettings) with ["source"] in Hp.
    apply list_elem_of_singleton in Hp as ->.
    vm_compute in Hv. injection Hv as <-. vm_compute in Hne. done.
Qed.




(** *** Properties of [[...new Set(l)]] *)

Lemma uniqueFrom_elem seen l x :
  x ∈ JS.uniqueFrom seen l ↔ x ∈ l ∧ x ∉ seen.
Proof.
  revert seen. induction l as [|y l IH]; intros seen; simpl.
  - split; [by intros ?%elem_of_nil|by intros [?%elem_of_nil _]].
  - case_bool_decide as Hy.
    + rewrite IH, elem_of_cons. split; [naive_solver|].
      intros [[->|?] ?]; [done|by split].
    + rewrite !elem_of_cons, IH, elem_of_cons. split.
      * intros [->|[? ?]]; [by split; [left|]|]. split; [by right|]. naive_solver.
      * intros [[->|?] ?]; [by left|].
        destruct (decide (x = y)) as [->|]; [by left|right]. naive_solver.
Qed.

Lemma uniqueFrom_NoDup seen l : NoDup (JS.uniqueFrom seen l).
Proof.
  revert seen. induction l as [|y l IH]; intros seen; simpl; [constructor|].
  case_bool_decide; [apply IH|]. constructor; [|apply IH].
  rewrite uniqueFrom_elem, elem_of_cons. naive_solver.
Qed.

Lemma uniqueFrom_ext seen1 seen2 l :
  (∀ z, z ∈ seen1 ↔ z ∈ seen2) → JS.uniqueFrom seen1 l = JS.uniqueFrom seen2 l.
Proof.
  revert seen1 seen2. induction l as [|y l IH]; intros seen1 seen2 Hext; simpl; [done|].
  rewrite (bool_decide_ext _ _ (Hext y)). case_bool_decide; [by apply IH|].
  f_equal. apply IH. intros z. rewrite !elem_of_cons, Hext. done.
Qed.

Lemma uniqueFrom_fresh seen l :
  NoDup l → (∀ x, x ∈ l → x ∉ seen) → JS.uniqueFrom seen l = l.
Proof.
  intros Hnd. revert seen. induction Hnd as [|y l Hy Hnd IH]; intros seen Hfresh; simpl; [done|].
  rewrite bool_decide_eq_false_2 by (apply Hfresh; left).
  f_equal. apply IH. intros x Hx [->|?]%elem_of_cons; [done|].
  by apply (Hfresh x); [right|].
Qed.

Lemma filter_other_id (x : string) (l : list string) :
  x ∉ l → List.filter (λ y, negb (String.eqb y x)) l = l.
Proof.
  induction l as [|y l IH]; intros Hx; simpl; [done|].
  apply not_elem_of_cons in Hx as [Hne Hx].
  destruct (String.eqb_spec y x) as [->|_]; [done|]. simpl. f_equal. by apply IH.
Qed.

Lemma uniqueFrom_cons_seen x seen l :
  JS.uniqueFrom (x :: seen) l
  = List.filter (λ y, negb (String.eqb y x)) (JS.uniqueFrom seen l).
Proof.
  revert seen. induction l as [|y l IH]; intros seen; simpl; [done|].
  destruct (decide (y ∈ seen)) as [Hy|Hy].
  - rewrite !bool_decide_eq_true_2 by (done || by right). apply IH.
  - rewrite (bool_decide_eq_false_2 (y ∈ seen)) by done. simpl.
    destruct (String.eqb_spec y x) as [->|Hne]; simpl.
    + rewrite bool_decide_eq_true_2 by left.
      rewrite filter_other_id; [done|].
      rewrite uniqueFrom_elem, elem_of_cons. naive_solver.
    + rewrite bool_decide_eq_false_2 by (rewrite elem_of_cons; naive_solver).
      f_equal. rewrite <- IH. apply uniqueFrom_ext.
      intros z. rewrite !elem_of_cons. naive_solver.
Qed.

(** *** Properties of the tag normalisers *)

Lemma mapM_asString_strings (l : list string) : mapM asString (map VStr l) = Some l.
Proof.
  apply mapM_Some_2. induction l as [|s l IH]; simpl; by constructor.
Qed.

Lemma filter_truthy_nonempty (l : list string) :
  Forall (λ t, t ≠ "") (List.filter JS.truthyString l).
Proof.
  apply Forall_forall. intros t Ht%list_elem_of_In.
  apply filter_In in Ht as [_ Ht]. by destruct t.
Qed.

Lemma processFrontmatterTags_nonempty fm settings ts :
  processFrontmatterTags fm settings = Some ts → Forall (λ t, t ≠ "") ts.
Proof.
  unfold processFrontmatterTags.
  destruct (negb (includeFrontmatterTags settings)
            || negb (truthyProperty (fm !! "tags"))).
  { intros [= <-]. constructor. }
  destruct (fm !! "tags") as [[| | |s|items| |]|]; try done.
  - intros [= <-]. apply filter_truthy_nonempty.
  - destruct (mapM asString items); simpl; [|done].
    intros [= <-]. apply filter_truthy_nonempty.
Qed.

(** C4 (as the code has it): with front-matter tags enabled, [frontmatterTags]
    lists, in input order, the non-empty strings obtained by removing one
    leading '#' from the entries of an array (taken as they are) or from the
    trimmed pieces of a comma-separated scalar; nothing is trimmed after the
    '#' is removed and repeated tags stay.  Only the merged tag list of a
    record is free of duplicates, and it keeps first occurrences. *)
Theorem frontmatterTags_as_extracted settings (fm : FrontMatter) :
  includeFrontmatterTags settings = true →
  (∀ l, fm !! "tags" = Some (VArr (map VStr l)) →
        processFrontmatterTags fm settings
        = Some (List.filter JS.truthyString (map stripHash l))) ∧
  (∀ s, fm !! "tags" = Some (VStr s) →
        processFrontmatterTags fm settings
        = Some (List.filter JS.truthyString
                  (map stripHash (map JS.trim (JS.split "," s))))) ∧
  (∀ ts, processFrontmatterTags fm settings = Some ts → Forall (λ t, t ≠ "") ts) ∧
  (∀ ignored vault file a,
     processFile settings ignored vault file = Some a →
     allTags a = JS.unique (frontmatterTags a ++ contentTags a) ∧
     NoDup (allTags a) ∧
     ∀ t, t ∈ allTags a ↔ t ∈ frontmatterTags a ∨ t ∈ contentTags a) ∧
  (∀ x l, JS.unique (x :: l)
          = x :: List.filter (λ y, negb (String.eqb y x)) (JS.unique l)).
Proof.
  intros Hon. split_and!.
  - intros l Hl. unfold processFrontmatterTags. rewrite Hon, Hl. simpl.
    by rewrite mapM_asString_strings.
  - intros s Hs. unfold processFrontmatterTags. rewrite Hon, Hs. simpl.
    destruct s; [|done]. reflexivity.
  - apply processFrontmatterTags_nonempty.
  - intros ignored vault file a. unfold processFile.
    destruct (isPathIgnored _ _); [done|].
    destruct (fileCache vault !! filePath file) as [md|]; [|done]. simpl.
    destruct (frontmatter md) as [fm'|]; [|done]. simpl.
    destruct (0 <? size _)%nat; [|done].
    destruct (contents vault !! filePath file); [|done]. simpl.
    destruct (processFrontmatterTags fm' settings) as [ts|]; [|done]. simpl.
    intros [= <-]. simpl. split_and!; [done|apply uniqueFrom_NoDup|].
    intros t. unfold JS.unique. rewrite uniqueFrom_elem, elem_of_app.
    split; [naive_solver|]. intros H. split; [done|]. apply not_elem_of_nil.
  - intros x l. unfold JS.unique. simpl.
    by rewrite uniqueFrom_cons_seen.
Qed.

Lemma frontmatterTags_news_scenario :
  processFrontmatterTags Scenario.newsClip Scenario.sourceSettings = Some ["news"; "ai"].
Proof.
  exact (proj1 (proj2 (frontmatterTags_as_extracted Scenario.sourceSettings
                         Scenario.newsClip eq_refl)) "#news, #ai" eq_refl).
Defined.

(** C4 (as stated) fails: a repeated array entry is repeated in
    [frontmatterTags], an array entry keeps its surrounding blanks, and a
    blank that follows the '#' of a scalar piece stays. *)
Lemma frontmatterTags_not_clean :
  (processFrontmatterTags Scenario.repeatedTags Scenario.settings = Some ["a"; "a"]
   ∧ ¬ TagSpec.cleanTags ["a"; "a"]) ∧
  (processFrontmatterTags Scenario.paddedTag Scenario.settings = Some [" a "]
   ∧ ¬ TagSpec.cleanTags [" a "]) ∧
  (processFrontmatterTags Scenario.hashThenBlank Scenario.settings = Some [" a"]
   ∧ ¬ TagSpec.cleanTags [" a"]).
Proof.
  split_and!; try reflexivity.
  - intros [_ Hnd]. apply NoDup_cons in Hnd as [Hnotin _].
    apply Hnotin. left.
  - intros [Hall _]. apply Forall_cons in Hall as [[Htrim _] _]. discriminate Htrim.
  - intros [Hall _]. apply Forall_cons in Hall as [[Htrim _] _]. discriminate Htrim.
Qed.

(** C9: a tag list that is already normalised (no leading '#', trimmed, no
    empty string, no duplicate) is returned unchanged by the front-matter
    normaliser (when front-matter tags are enabled), by the content
    normaliser, for bare strings and for tag objects, and by the merge. *)
Theorem normalized_tags_fixed settings (fm : FrontMatter) (l : list string) :
  includeFrontmatterTags settings = true →
  TagSpec.normalized l →
  processFrontmatterTags (<["tags" := VArr (map VStr l)]> fm) settings = Some l ∧
  processContentTags (Some (map TagString l)) = l ∧
  processContentTags (Some (map TagObject l)) = l ∧
  JS.unique l = l.
Proof.
  intros Hon (Hhash & Hclean & Hnd).
  assert (List.filter JS.truthyString (map stripHash l) = l) as Hfix.
  { clear Hnd. induction l as [|t l IH]; [done|].
    apply Forall_cons in Hhash as [Ht Hhash].
    apply Forall_cons in Hclean as [[_ Hne] Hclean].
    assert (stripHash t = t) as Hstrip by (unfold stripHash; by rewrite Ht).
    cbn [map List.filter]. rewrite Hstrip.
    destruct t; [done|]. cbn [JS.truthyString]. f_equal. by apply IH. }
  split_and!.
  - unfold processFrontmatterTags. rewrite Hon, lookup_insert_eq. simpl.
    rewrite mapM_asString_strings. simpl. by rewrite Hfix.
  - simpl. rewrite !map_map. exact Hfix.
  - simpl. rewrite !map_map. exact Hfix.
  - apply uniqueFrom_fresh; [done|]. intros x _. apply not_elem_of_nil.
Qed.

Lemma normalized_tags_fixed_example :
  processFrontmatterTags (<["tags" := VArr (map VStr ["news"; "ai"])]> ∅)
    Scenario.settings = Some ["news"; "ai"].
Proof.
  refine (proj1 (normalized_tags_fixed Scenario.settings ∅ ["news"; "ai"] eq_refl _)).
  split; [|split].
  - repeat constructor.
  - repeat constructor; discriminate.
  - apply NoDup_cons. split.
    + intros [=]%list_elem_of_singleton.
    + apply NoDup_singleton.
Defined.

(** *** Properties of the string primitives used by the search *)

Lemma prefix_empty s : String.prefix "" s = true.
Proof. by destruct s. Qed.

Lemma includes_empty s : JS.includes s "" = true.
Proof. destruct s; simpl; by rewrite ?prefix_empty. Qed.

Lemma prefix_cons_inv a t b s :
  String.prefix (String a t) (String b s) = true → a = b ∧ String.prefix t s = true.
Proof. simpl. by destruct (ascii_dec a b). Qed.

Lemma includes_first_char s a t :
  JS.includes s (String a t) = true → JS.includes s (String a "") = true.
Proof.
  induction s as [|b s IH]; [done|].
  cbn [JS.includes]. rewrite !orb_true_iff. intros [Hp|Hi].
  - apply prefix_cons_inv in Hp as [-> _]. left. simpl.
    destruct (ascii_dec b b); [|done]. apply prefix_empty.
  - right. by apply IH.
Qed.

Lemma lowerChar_hash_inv c : JS.lowerChar c = "#"%char → c = "#"%char.
Proof. destruct c as [[] [] [] [] [] [] [] []]; vm_compute; congruence. Qed.

Lemma includes_lower_hash s :
  JS.includes (JS.toLowerCase s) "#" = true → JS.includes s "#" = true.
Proof.
  induction s as [|c s IH]; [done|].
  cbn [JS.toLowerCase JS.includes]. rewrite !orb_true_iff. intros [Hp|Hi].
  - apply prefix_cons_inv in Hp as [Hc _]. symmetry in Hc.
    apply lowerChar_hash_inv in Hc. subst c. left. simpl. apply prefix_empty.
  - right. by apply IH.
Qed.

Lemma hashFree_no_hash_term s name :
  SearchSpec.hashFree s → ¬ SearchSpec.containsCI s (String "#" name).
Proof.
  unfold SearchSpec.hashFree, SearchSpec.containsCI. intros Hfree Hin.
  change (JS.toLowerCase (String "#" name)) with (String "#" (JS.toLowerCase name)) in Hin.
  apply includes_first_char, includes_lower_hash in Hin. congruence.
Qed.

Lemma existsb_elem_of {A} (f : A → bool) (l : list A) :
  existsb f l = true ↔ ∃ x, x ∈ l ∧ f x = true.
Proof.
  rewrite existsb_exists. split; intros (x & Hx & Hf); exists x; split; try done;
    by apply list_elem_of_In.
Qed.

(** *** Properties of the sort *)

Lemma insertSorted_Permutation {A} (cmp : A → A → Z) a l :
  JS.insertSorted cmp a l ≡ₚ a :: l.
Proof.
  induction l as [|x l IH]; simpl; [done|].
  destruct (cmp a x <=? 0); [done|]. rewrite IH. apply Permutation_swap.
Qed.

Lemma sort_Permutation {A} (cmp : A → A → Z) l : JS.sort cmp l ≡ₚ l.
Proof.
  induction l as [|a l IH]; simpl; [done|].
  by rewrite insertSorted_Permutation, IH.
Qed.

Lemma sortedArticles_elem lc sc l a : a ∈ sortedArticles lc sc l ↔ a ∈ l.
Proof. unfold sortedArticles. by rewrite sort_Permutation. Qed.

Lemma insertSorted_read_asc lc a rs us :
  Forall (λ x, read x = true) rs → Forall (λ x, read x = false) us →
  JS.insertSorted (compareArticles lc (byRead Asc)) a (rs ++ us)
  = if read a then a :: rs ++ us else rs ++ a :: us.
Proof.
  intros Hrs Hus. induction Hrs as [|x rs Hx Hrs IH]; simpl.
  - destruct Hus as [|x us Hx Hus]; simpl; [by destruct (read a)|].
    unfold compareArticles; simpl. rewrite Hx. by destruct (read a).
  - unfold compareArticles at 1; simpl. rewrite Hx.
    destruct (read a) eqn:Ha; simpl; [done|]. f_equal. exact IH.
Qed.

Lemma insertSorted_read_desc lc a us rs :
  Forall (λ x, read x = false) us → Forall (λ x, read x = true) rs →
  JS.insertSorted (compareArticles lc (byRead Desc)) a (us ++ rs)
  = if read a then us ++ a :: rs else a :: us ++ rs.
Proof.
  intros Hus Hrs. induction Hus as [|x us Hx Hus IH]; simpl.
  - destruct Hrs as [|x rs Hx Hrs]; simpl; [by destruct (read a)|].
    unfold compareArticles; simpl. rewrite Hx. by destruct (read a).
  - unfold compareArticles at 1; simpl. rewrite Hx.
    destruct (read a) eqn:Ha; simpl; [|done]. f_equal. exact IH.
Qed.

Lemma Forall_filter_true {A} (f : A → bool) (l : list A) :
  Forall (λ x, f x = true) (List.filter f l).
Proof.
  apply Forall_forall. intros x Hx%list_elem_of_In. by apply filter_In in Hx as [_ ?].
Qed.

(** C7: sorting by the read key, ascending, yields the read records in
    their input order followed by the unread records in their input order;
    descending, the unread records in their input order followed by the read
    ones in theirs. *)
Theorem sort_by_read_is_stable_partition lc (l : list Article) :
  sortedArticles lc {| key := KeyRead; direction := Asc |} l
    = List.filter read l ++ List.filter (λ a, negb (read a)) l ∧
  sortedArticles lc {| key := KeyRead; direction := Desc |} l
    = List.filter (λ a, negb (read a)) l ++ List.filter read l.
Proof.
  assert (∀ l' : list Article,
            Forall (λ x, read x = false) (List.filter (λ a, negb (read a)) l')) as Hun.
  { intros l'. eapply Forall_impl; [apply Forall_filter_true|].
    intros x Hx. simpl in Hx. by apply negb_true_iff. }
  unfold sortedArticles. fold (byRead Asc). fold (byRead Desc).
  split; induction l as [|a l IH]; simpl; try done; rewrite IH.
  - rewrite insertSorted_read_asc by (apply Forall_filter_true || apply Hun).
    by destruct (read a).
  - rewrite insertSorted_read_desc by (apply Forall_filter_true || apply Hun).
    by destruct (read a).
Qed.

(** *** Properties of the filter *)

Lemma filteredArticles_elem lc sc h s term l a :
  a ∈ filteredArticles lc sc h s term l ↔
  a ∈ sortedArticles lc sc l ∧ keepArticle h s term a = true.
Proof.
  unfold filteredArticles. rewrite list_elem_of_In, filter_In, <- list_elem_of_In. done.
Qed.

Lemma keepArticle_conjunction h s term a :
  keepArticle h s term a
  = negb (h && read a) && negb (s && negb (read a)) && matchesSearch term a.
Proof. unfold keepArticle. by destruct h, s, (read a). Qed.

Lemma click_exclusive t c :
  hideCompletedState (click t c) && showOnlyCompletedState (click t c) = false.
Proof. destruct t as [[] []], c; reflexivity. Qed.

(** C6: whatever sequence of clicks on the two toggles, starting with both
    off, they are never both on; and for any setting of the toggles the
    displayed list is the sorted catalog restricted to the records that pass
    both read-state tests and the search: no read record while "hide" is on,
    no unread record while "show only" is on. *)
Theorem read_toggles_exclusive_and_filter lc sc (cs : list ToggleClick) term l :
  hideCompletedState (clicks cs) && showOnlyCompletedState (clicks cs) = false ∧
  (∀ h s, filteredArticles lc sc h s term l
          = List.filter (λ a, negb (h && read a) && negb (s && negb (read a))
                              && matchesSearch term a)
              (sortedArticles lc sc l)) ∧
  (∀ h s a, a ∈ filteredArticles lc sc h s term l ↔
            a ∈ sortedArticles lc sc l ∧
            h && read a = false ∧
            s && negb (read a) = false ∧
            matchesSearch term a = true).
Proof.
  split_and!.
  - unfold clicks. destruct cs as [|c cs _] using rev_ind; [done|].
    rewrite foldl_app. simpl. apply click_exclusive.
  - intros h s. unfold filteredArticles.
    apply filter_ext. intros a. apply keepArticle_conjunction.
  - intros h s a. rewrite filteredArticles_elem, keepArticle_conjunction.
    rewrite !andb_true_iff, !negb_true_iff. tauto.
Qed.

(** C10: the empty search term accepts every record, so the displayed list
    is the sorted catalog restricted by the read-state toggles alone. *)
Theorem empty_search_keeps_all lc sc h s (l : list Article) :
  (∀ a, matchesSearch "" a = true) ∧
  filteredArticles lc sc h s "" l
  = List.filter (λ a, negb (h && read a) && negb (s && negb (read a)))
      (sortedArticles lc sc l).
Proof.
  assert (∀ a, matchesSearch "" a = true) as Hall.
  { intros a. unfold matchesSearch. simpl JS.toLowerCase.
    by rewrite includes_empty. }
  split; [done|]. unfold filteredArticles. apply filter_ext. intros a.
  by rewrite keepArticle_conjunction, Hall, andb_true_r.
Qed.

(** C5 (as the code has it): for the term '#' followed by a name, the
    search accepts a record exactly when its title or one of its tags
    contains the whole term, '#' included, or one of its tags equals the
    name, all without regard to case; with both toggles off these are the
    displayed records.  For a record with no '#' in its title or tags this
    amounts to having the tag itself, so a longer tag such as foobar alone
    does not match #foo. *)
Theorem hash_search_matches lc sc (name : string) (l : list Article) (a : Article) :
  (matchesSearch (String "#" name) a = true ↔
   SearchSpec.containsCI (title a) (String "#" name) ∨
   (∃ tag, tag ∈ allTags a ∧ SearchSpec.containsCI tag (String "#" name)) ∨
   SearchSpec.hasExactTag name a) ∧
  (a ∈ filteredArticles lc sc false false (String "#" name) l ↔
   a ∈ l ∧ matchesSearch (String "#" name) a = true) ∧
  (SearchSpec.hashFree (title a) → Forall SearchSpec.hashFree (allTags a) →
   (matchesSearch (String "#" name) a = true ↔ SearchSpec.hasExactTag name a)).
Proof.
  assert (matchesSearch (String "#" name) a = true ↔
          SearchSpec.containsCI (title a) (String "#" name) ∨
          (∃ tag, tag ∈ allTags a ∧ SearchSpec.containsCI tag (String "#" name)) ∨
          SearchSpec.hasExactTag name a) as Hiff.
  { unfold matchesSearch, SearchSpec.containsCI, SearchSpec.hasExactTag.
    rewrite !orb_true_iff, andb_true_iff, !existsb_elem_of.
    change (JS.startsWith (String "#" name) "#") with (String.prefix "" name).
    rewrite prefix_empty. cbn [JS.slice1].
    setoid_rewrite String.eqb_eq. tauto. }
  split_and!; [done| |].
  - rewrite filteredArticles_elem, sortedArticles_elem. done.
  - intros Htitle Htags. rewrite Hiff. split; [|tauto].
    intros [Ht|[(tag & Hin & Ht)|?]]; [| |done].
    + by apply hashFree_no_hash_term in Ht.
    + rewrite Forall_forall in Htags.
      by apply hashFree_no_hash_term in Ht; [|apply Htags].
Qed.

Lemma hash_search_longer_tag :
  matchesSearch "#foo" (Scenario.article "x" ["foobar"] false) = false.
Proof.
  apply not_true_is_false. intros Hm.
  apply (proj2 (proj2 (hash_search_matches Scenario.codeUnitCompare Scenario.byDateDesc
                         "foo" [] (Scenario.article "x" ["foobar"] false)))) in Hm.
  - destruct Hm as (tag & Hin & Heq). simpl in Hin.
    apply list_elem_of_singleton in Hin as ->. discriminate Heq.
  - reflexivity.
  - repeat constructor.
Defined.

(** C5 (as stated) fails: the term #foo accepts a record that has no tag at
    all but '#foo' in its title, and a record whose only tag is the longer
    '#foobar'. *)
Lemma hash_search_accepts_without_exact_tag :
  (filteredArticles Scenario.codeUnitCompare Scenario.byDateDesc false false "#foo"
     [Scenario.article "on #Foo" [] false] = [Scenario.article "on #Foo" [] false]
   ∧ ¬ SearchSpec.hasExactTag "foo" (Scenario.article "on #Foo" [] false)) ∧
  (filteredArticles Scenario.codeUnitCompare Scenario.byDateDesc false false "#foo"
     [Scenario.article "x" ["#foobar"] false] = [Scenario.article "x" ["#foobar"] false]
   ∧ ¬ SearchSpec.hasExactTag "foo" (Scenario.article "x" ["#foobar"] false)).
Proof.
  split_and!; try reflexivity.
  - intros (tag & Hin & _). simpl in Hin. by apply elem_of_nil in Hin.
  - intros (tag & Hin & Heq). simpl in Hin.
    apply list_elem_of_singleton in Hin as ->. discriminate Heq.
Qed.

(** *** Properties of the read-state handler *)









(** * Further properties of the component *)

(** *** Splitting and joining *)

Lemma append_cons c s t : String c s +:+ t = String c (s +:+ t).
Proof. reflexivity. Qed.

Lemma append_nil_l t : "" +:+ t = t.
Proof. reflexivity. Qed.

Lemma includes_char_cons a s c :
  JS.includes (String a s) (String c "") = Ascii.eqb a c || JS.includes s (String c "").
Proof.
  cbn [JS.includes String.prefix].
  destruct (ascii_dec c a) as [->|Hne].
  - by rewrite Ascii.eqb_refl, prefix_empty.
  - destruct (Ascii.eqb_spec a c) as [->|_]; [done|]. done.
Qed.

Lemma split_app sep s t :
  JS.split sep (s +:+ String sep t) = JS.split sep s ++ JS.split sep t.
Proof.
  induction s as [|c s IH].
  - rewrite append_nil_l. cbn [JS.split]. by rewrite Ascii.eqb_refl.
  - rewrite append_cons. cbn [JS.split]. rewrite IH.
    destruct (Ascii.eqb c sep); [done|].
    pose proof (split_nonempty sep s) as Hlen.
    destruct (JS.split sep s); [simpl in Hlen; lia|done].
Qed.

Lemma split_no_separator sep s :
  JS.includes s (String sep "") = false → JS.split sep s = [s].
Proof.
  induction s as [|c s IH]; [done|].
  rewrite includes_char_cons, orb_false_iff. intros [Hc Hs].
  cbn [JS.split]. rewrite Hc, (IH Hs). done.
Qed.

Lemma split_pieces_no_separator sep s :
  Forall (λ piece, JS.includes piece (String sep "") = false) (JS.split sep s).
Proof.
  induction s as [|c s IH]; cbn [JS.split].
  - by repeat constructor.
  - destruct (Ascii.eqb c sep) eqn:Hc.
    + by constructor.
    + pose proof (split_nonempty sep s) as Hlen.
      destruct (JS.split sep s) as [|h t]; [simpl in Hlen; lia|].
      apply Forall_cons in IH as [Hh Ht]. constructor; [|done].
      by rewrite includes_char_cons, Hc, Hh.
Qed.

Lemma backslashesToSlashes_app s t :
  JS.backslashesToSlashes (s +:+ t)
  = JS.backslashesToSlashes s +:+ JS.backslashesToSlashes t.
Proof.
  induction s as [|c s IH]; [done|].
  rewrite append_cons. cbn [JS.backslashesToSlashes]. by rewrite IH.
Qed.

Lemma backslashesToSlashes_none s :
  JS.includes s "\" = false → JS.backslashesToSlashes s = s.
Proof.
  induction s as [|c s IH]; [done|].
  rewrite includes_char_cons, orb_false_iff. intros [Hc Hs].
  cbn [JS.backslashesToSlashes]. by rewrite Hc, (IH Hs).
Qed.

Lemma stripTrailingSlash_cases s :
  JS.stripTrailingSlash s = s ∨ s = JS.stripTrailingSlash s +:+ "/".
Proof.
  induction s as [|c s IH]; [by left|].
  destruct s as [|c' s].
  - cbn [JS.stripTrailingSlash]. destruct (Ascii.eqb_spec c "/") as [->|_]; [by right|by left].
  - change (JS.stripTrailingSlash (String c (String c' s)))
      with (String c (JS.stripTrailingSlash (String c' s))).
    destruct IH as [->|IH]; [by left|right].
    rewrite append_cons. by rewrite <- IH.
Qed.

Lemma separatorFree_segment name :
  separatorFree name → JS.split "/" (JS.backslashesToSlashes name) = [name].
Proof.
  intros [Hslash Hback].
  rewrite backslashesToSlashes_none by done. by apply split_no_separator.
Qed.

Lemma leadingSegmentsAgree_app (rs extra : list string) :
  PathSpec.leadingSegmentsAgree rs (rs ++ extra).
Proof.
  intros i d Hd. exists d. split; [|done].
  by apply lookup_app_l_Some.
Qed.

Lemma stripTrailingSlash_slash s : JS.stripTrailingSlash (s +:+ "/") = s.
Proof.
  induction s as [|c s IH]; [done|].
  rewrite append_cons.
  destruct s as [|c' s]; [done|].
  rewrite append_cons in *.
  change (JS.stripTrailingSlash (String c (String c' (s +:+ "/"))))
    with (String c (JS.stripTrailingSlash (String c' (s +:+ "/")))).
  by rewrite IH.
Qed.

Lemma ruleSegments_slash d :
  PathSpec.ruleSegments (d +:+ "/") = JS.split "/" (JS.backslashesToSlashes d).
Proof.
  unfold PathSpec.ruleSegments.
  by rewrite backslashesToSlashes_app, stripTrailingSlash_slash.
Qed.

Lemma children_of_rule rule d child :
  PathSpec.ruleSegments rule = JS.split "/" (JS.backslashesToSlashes d) →
  separatorFree child →
  dirMatches (d +:+ "/" +:+ child) rule = true ∧
  ∀ grandchild, separatorFree grandchild →
    dirMatches (d +:+ "/" +:+ child +:+ "/" +:+ grandchild) rule = false.
Proof.
  intros Hrule Hchild.
  assert (PathSpec.pathSegments (d +:+ "/" +:+ child)
          = PathSpec.ruleSegments rule ++ [child]) as Hsegs.
  { rewrite Hrule. unfold PathSpec.pathSegments.
    rewrite backslashesToSlashes_app.
    change (JS.backslashesToSlashes ("/" +:+ child))
      with (String "/" (JS.backslashesToSlashes child)).
    by rewrite split_app, (separatorFree_segment child Hchild). }
  split.
  - apply dirMatches_spec. unfold PathSpec.ruleMatches. rewrite Hsegs. split.
    + apply leadingSegmentsAgree_app.
    + right. rewrite length_app. simpl. lia.
  - intros grandchild Hgrand. apply not_true_is_false. intros Hm.
    apply dirMatches_spec in Hm as [_ Hlen].
    assert (PathSpec.pathSegments (d +:+ "/" +:+ child +:+ "/" +:+ grandchild)
            = PathSpec.ruleSegments rule ++ [child; grandchild]) as Hdeep.
    { rewrite Hrule. unfold PathSpec.pathSegments.
      rewrite backslashesToSlashes_app.
      change (JS.backslashesToSlashes ("/" +:+ child +:+ "/" +:+ grandchild))
        with (String "/" (JS.backslashesToSlashes (child +:+ "/" +:+ grandchild))).
      rewrite split_app, backslashesToSlashes_app.
      change (JS.backslashesToSlashes ("/" +:+ grandchild))
        with (String "/" (JS.backslashesToSlashes grandchild)).
      by rewrite split_app, (separatorFree_segment child Hchild),
        (separatorFree_segment grandchild Hgrand). }
    rewrite Hdeep, length_app in Hlen. simpl in Hlen. lia.
Qed.

(** X1: a rule matches the directory it names, the rule written as the
    directory is or with one more slash at its end.  Written either way (as
    the directory, when that does not end in a separator, or with the slash
    added), the rule also matches every direct child of the directory, and
    no grandchild. *)
Theorem rule_covers_directory_and_children (d : string) :
  dirMatches d d = true ∧
  (JS.stripTrailingSlash (JS.backslashesToSlashes d) = JS.backslashesToSlashes d →
   ∀ child, separatorFree child →
     dirMatches (d +:+ "/" +:+ child) d = true ∧
     ∀ grandchild, separatorFree grandchild →
       dirMatches (d +:+ "/" +:+ child +:+ "/" +:+ grandchild) d = false) ∧
  dirMatches d (d +:+ "/") = true ∧
  (∀ child, separatorFree child →
     dirMatches (d +:+ "/" +:+ child) (d +:+ "/") = true ∧
     ∀ grandchild, separatorFree grandchild →
       dirMatches (d +:+ "/" +:+ child +:+ "/" +:+ grandchild) (d +:+ "/") = false).
Proof.
  split_and!.
  - apply dirMatches_spec. unfold PathSpec.ruleMatches, PathSpec.ruleSegments,
      PathSpec.pathSegments.
    destruct (stripTrailingSlash_cases (JS.backslashesToSlashes d)) as [->|Hd].
    + split; [|by left]. rewrite <- (app_nil_r (JS.split _ _)) at 2.
      apply leadingSegmentsAgree_app.
    + rewrite Hd at 2 4 5. rewrite !split_app. split.
      * apply leadingSegmentsAgree_app.
      * right. rewrite length_app. simpl. lia.
  - intros Hstrip child Hchild. apply children_of_rule; [|done].
    unfold PathSpec.ruleSegments. by rewrite Hstrip.
  - apply dirMatches_spec. unfold PathSpec.ruleMatches.
    rewrite ruleSegments_slash. unfold PathSpec.pathSegments. split; [|by left].
    rewrite <- (app_nil_r (JS.split _ _)) at 2. apply leadingSegmentsAgree_app.
  - intros child Hchild. apply children_of_rule; [|done]. apply ruleSegments_slash.
Qed.

Lemma rule_covers_child_example :
  (dirMatches "Clippings/web/2024" "Clippings/web" = true ∧
   dirMatches "Clippings/web/2024/jan" "Clippings/web" = false) ∧
  dirMatches "Clippings/web" "Clippings/web/" = true ∧
  (dirMatches "Clippings/web/2024" "Clippings/web/" = true ∧
   dirMatches "Clippings/web/2024/jan" "Clippings/web/" = false).
Proof.
  destruct (rule_covers_directory_and_children "Clippings/web")
    as (_ & Hplain & Hslash & Hchildren).
  split_and!.
  - exact (proj1 (Hplain eq_refl "2024" (conj eq_refl eq_refl))).
  - exact (proj2 (Hplain eq_refl "2024" (conj eq_refl eq_refl)) "jan" (conj eq_refl eq_refl)).
  - exact Hslash.
  - exact (proj1 (Hchildren "2024" (conj eq_refl eq_refl))).
  - exact (proj2 (Hchildren "2024" (conj eq_refl eq_refl)) "jan" (conj eq_refl eq_refl)).
Defined.

(** *** The matcher reads paths and rules up to case and kind of slash *)

Lemma lowerChar_slash c : Ascii.eqb (JS.lowerChar c) "/" = Ascii.eqb c "/".
Proof. destruct c as [[] [] [] [] [] [] [] []]; reflexivity. Qed.

Lemma toLowerCase_split s :
  JS.toLowerCase <$> JS.split "/" s = JS.split "/" (JS.toLowerCase s).
Proof.
  induction s as [|c s IH]; [done|].
  cbn [JS.split JS.toLowerCase]. rewrite lowerChar_slash, <- IH.
  destruct (Ascii.eqb c "/"); [done|]. by destruct (JS.split "/" s).
Qed.

Lemma toLowerCase_stripTrailingSlash s :
  JS.toLowerCase (JS.stripTrailingSlash s) = JS.stripTrailingSlash (JS.toLowerCase s).
Proof.
  induction s as [|c s IH]; [done|].
  destruct s as [|c' s].
  - cbn [JS.stripTrailingSlash JS.toLowerCase]. rewrite lowerChar_slash.
    by destruct (Ascii.eqb c "/").
  - change (JS.stripTrailingSlash (String c (String c' s)))
      with (String c (JS.stripTrailingSlash (String c' s))).
    cbn [JS.toLowerCase] in *.
    change (JS.stripTrailingSlash
              (String (JS.lowerChar c) (String (JS.lowerChar c') (JS.toLowerCase s))))
      with (String (JS.lowerChar c)
              (JS.stripTrailingSlash (String (JS.lowerChar c') (JS.toLowerCase s)))).
    by rewrite IH.
Qed.

Lemma ruleMatches_normalForm p d :
  PathSpec.ruleMatches p d ↔
  (∀ i x, JS.split "/" (JS.stripTrailingSlash (pathNormalForm d)) !! i = Some x →
          JS.split "/" (pathNormalForm p) !! i = Some x) ∧
  (length (JS.split "/" (pathNormalForm p))
     = length (JS.split "/" (JS.stripTrailingSlash (pathNormalForm d))) ∨
   length (JS.split "/" (pathNormalForm p))
     = S (length (JS.split "/" (JS.stripTrailingSlash (pathNormalForm d))))).
Proof.
  unfold pathNormalForm.
  rewrite <- toLowerCase_stripTrailingSlash, <- !toLowerCase_split, !length_fmap.
  unfold PathSpec.ruleMatches, PathSpec.leadingSegmentsAgree, PathSpec.sameSegment.
  fold (PathSpec.ruleSegments d). fold (PathSpec.pathSegments p).
  apply and_iff_compat_r. split.
  - intros Hagree i x. rewrite !list_lookup_fmap.
    destruct (PathSpec.ruleSegments d !! i) as [seg|] eqn:Hseg; [|done].
    intros [= <-]. destruct (Hagree i seg Hseg) as (seg' & -> & Heq). simpl. by rewrite Heq.
  - intros Hagree i seg Hseg. specialize (Hagree i (JS.toLowerCase seg)).
    rewrite !list_lookup_fmap, Hseg in Hagree. specialize (Hagree eq_refl).
    destruct (PathSpec.pathSegments p !! i) as [seg'|]; [|done].
    exists seg'. split; [done|]. by injection Hagree.
Qed.

(** X2: whether a rule matches a path depends only on the two strings read
    with '/' for every backslash and in lower case; so two paths, or two
    rules, that differ only in case or in the kind of slash are treated
    alike by every rule list. *)
Theorem matcher_ignores_case_and_slash_kind (p1 p2 d1 d2 : string) :
  pathNormalForm p1 = pathNormalForm p2 →
  pathNormalForm d1 = pathNormalForm d2 →
  dirMatches p1 d1 = dirMatches p2 d2 ∧
  ∀ rules, isPathIgnored rules p1 = isPathIgnored rules p2.
Proof.
  intros Hp Hd.
  assert (∀ d d', pathNormalForm d = pathNormalForm d' →
                  dirMatches p1 d = dirMatches p2 d') as Hsame.
  { intros d d' Hdd. apply eq_true_iff_eq.
    rewrite !dirMatches_spec, !ruleMatches_normalForm, Hp, Hdd. done. }
  split; [by apply Hsame|].
  intros rules. unfold isPathIgnored.
  induction rules as [|d rules IH]; [done|]. simpl.
  by rewrite IH, (Hsame d d eq_refl).
Qed.

Lemma matcher_ignores_case_example :
  dirMatches "Work\Expenses" "work/expenses/" = dirMatches "work/expenses" "WORK/EXPENSES/".
Proof.
  exact (proj1 (matcher_ignores_case_and_slash_kind
                  "Work\Expenses" "work/expenses" "work/expenses/" "WORK/EXPENSES/"
                  eq_refl eq_refl)).
Defined.

(** *** White space and [trim] *)

Lemma trimEnd_empty_inv s :
  JS.trimEnd s = "" → s = "" ∨ ∃ c r, s = String c r ∧ Ascii.is_space c = true.
Proof.
  destruct s as [|c r]; [by left|]. cbn [JS.trimEnd].
  destruct (JS.trimEnd r); [|done].
  destruct (Ascii.is_space c) eqn:Hc; [|done]. right. eauto.
Qed.

Lemma trimStart_head s :
  JS.trimStart s = "" ∨ ∃ c r, JS.trimStart s = String c r ∧ Ascii.is_space c = false.
Proof.
  induction s as [|c s IH]; [by left|]. cbn [JS.trimStart].
  destruct (Ascii.is_space c) eqn:Hc; [done|]. right. eauto.
Qed.

Lemma trimStart_empty_no_char s (c : ascii) :
  Ascii.is_space c = false → JS.trimStart s = "" → JS.includes s (String c "") = false.
Proof.
  intros Hc. induction s as [|a s IH]; [done|]. cbn [JS.trimStart].
  destruct (Ascii.is_space a) eqn:Ha; [|done].
  intros Hs. rewrite includes_char_cons, (IH Hs), orb_false_r.
  destruct (Ascii.eqb_spec a c) as [->|_]; [congruence|done].
Qed.

Lemma trim_empty_inv s : JS.trim s = "" → JS.trimStart s = "".
Proof.
  unfold JS.trim. intros [Hs|(c & r & Hs & Hc)]%trimEnd_empty_inv; [done|].
  destruct (trimStart_head s) as [?|(c' & r' & Hs' & Hc')]; [done|]. congruence.
Qed.

Lemma directoriesToAdd_blank input :
  JS.trim input = "" → directoriesToAdd input = [].
Proof.
  intros Hblank. unfold directoriesToAdd.
  rewrite (split_no_separator "," input).
  - simpl. by rewrite Hblank.
  - apply trimStart_empty_no_char; [done|]. by apply trim_empty_inv.
Qed.

(** *** Editing the exclusion list *)

Lemma uniqueFrom_all_seen seen l :
  (∀ x, x ∈ l → x ∈ seen) → JS.uniqueFrom seen l = [].
Proof.
  induction l as [|x l IH]; intros Hall; simpl; [done|].
  rewrite bool_decide_eq_true_2 by (apply Hall; left).
  apply IH. intros y Hy. apply Hall. by right.
Qed.

Lemma foldl_pushIfNew l ds : foldl pushIfNew l ds = l ++ JS.uniqueFrom l ds.
Proof.
  revert l. induction ds as [|d ds IH]; intros l; simpl.
  - by rewrite app_nil_r.
  - rewrite IH. unfold pushIfNew. case_bool_decide as Hd; [done|].
    rewrite <- app_assoc. simpl. do 2 f_equal. apply uniqueFrom_ext.
    intros z. set_solver.
Qed.

Lemma handleAddDirectory_list st :
  ignoredDirectories (advancedSettings (handleAddDirectory st))
  = ignoredDirectories (advancedSettings st)
    ++ JS.uniqueFrom (ignoredDirectories (advancedSettings st))
         (directoriesToAdd (newDirectory st)).
Proof.
  unfold handleAddDirectory.
  destruct (JS.trim (newDirectory st)) eqn:Htrim; simpl.
  - by rewrite (directoriesToAdd_blank _ Htrim), app_nil_r.
  - destruct (directoriesToAdd (newDirectory st)) as [|d ds] eqn:Hds.
    + simpl. by rewrite app_nil_r.
    + cbn [length Nat.eqb advancedSettings ignoredDirectories].
      apply foldl_pushIfNew.
Qed.

(** X3: [handleAddDirectory] keeps the rules already present, in their
    order, and appends, once each and in input order, exactly the trimmed
    non-empty pieces of the comma-separated input that are not yet in the
    list (compared as exact strings); a list without duplicates stays
    without duplicates. *)
Theorem handleAddDirectory_appends_new_rules (st : PanelState) :
  ∃ added,
    ignoredDirectories (advancedSettings (handleAddDirectory st))
      = ignoredDirectories (advancedSettings st) ++ added ∧
    (added `sublist_of` directoriesToAdd (newDirectory st)) ∧
    NoDup added ∧
    (∀ d, d ∈ added ↔
          d ∈ directoriesToAdd (newDirectory st) ∧
          d ∉ ignoredDirectories (advancedSettings st)) ∧
    (NoDup (ignoredDirectories (advancedSettings st)) →
     NoDup (ignoredDirectories (advancedSettings (handleAddDirectory st)))).
Proof.
  exists (JS.uniqueFrom (ignoredDirectories (advancedSettings st))
            (directoriesToAdd (newDirectory st))).
  split_and!.
  - apply handleAddDirectory_list.
  - generalize (ignoredDirectories (advancedSettings st)).
    induction (directoriesToAdd (newDirectory st)) as [|d ds IH]; intros seen; simpl.
    + constructor.
    + case_bool_decide; [by apply sublist_cons|by apply sublist_skip].
  - apply uniqueFrom_NoDup.
  - intros d. apply uniqueFrom_elem.
  - intros Hnd. rewrite handleAddDirectory_list. apply NoDup_app. split_and!.
    + done.
    + intros d Hd. rewrite uniqueFrom_elem. tauto.
    + apply uniqueFrom_NoDup.
Qed.

Lemma handleAddDirectory_example :
  NoDup (ignoredDirectories (advancedSettings
           (handleAddDirectory (Scenario2.panel ["work"] " work , news,, news ")))).
Proof.
  destruct (handleAddDirectory_appends_new_rules
              (Scenario2.panel ["work"] " work , news,, news "))
    as (added & _ & _ & _ & _ & Hnd).
  apply Hnd. apply NoDup_singleton.
Defined.

(** X4: typing the same text again and adding it a second time changes
    nothing: the list is the one after the first addition. *)
Theorem handleAddDirectory_same_input_twice (input : string) (st : PanelState) :
  ignoredDirectories (advancedSettings
    (handleAddDirectory (typeDirectory input (handleAddDirectory (typeDirectory input st)))))
  = ignoredDirectories (advancedSettings (handleAddDirectory (typeDirectory input st))).
Proof.
  rewrite (handleAddDirectory_list (typeDirectory input (handleAddDirectory _))).
  cbn [typeDirectory advancedSettings newDirectory].
  rewrite uniqueFrom_all_seen; [by rewrite app_nil_r|].
  intros d Hd. rewrite handleAddDirectory_list.
  cbn [typeDirectory advancedSettings newDirectory].
  rewrite elem_of_app, uniqueFrom_elem.
  destruct (decide (d ∈ ignoredDirectories (advancedSettings st))); tauto.
Qed.

Lemma filter_other_sublist (dir : string) (l : list string) :
  List.filter (λ d, negb (String.eqb d dir)) l `sublist_of` l.
Proof.
  induction l as [|x l IH]; simpl; [constructor|].
  destruct (negb (String.eqb x dir)); [by apply sublist_skip|by apply sublist_cons].
Qed.

Lemma filter_other_elem (dir d : string) (l : list string) :
  d ∈ List.filter (λ d, negb (String.eqb d dir)) l ↔ d ∈ l ∧ d ≠ dir.
Proof.
  rewrite list_elem_of_In, filter_In, <- list_elem_of_In, negb_true_iff.
  by destruct (String.eqb_spec d dir); split; intros [? ?].
Qed.

(** X5: [handleRemoveDirectory] removes every occurrence of the rule and
    nothing else, keeping the order of the others; removing a rule that is
    not in the list changes nothing. *)
Theorem handleRemoveDirectory_removes_rule (dir : string) (st : PanelState) :
  (dir ∉ ignoredDirectories (advancedSettings (handleRemoveDirectory dir st))) ∧
  (∀ d, d ≠ dir →
        (d ∈ ignoredDirectories (advancedSettings (handleRemoveDirectory dir st)) ↔
         d ∈ ignoredDirectories (advancedSettings st))) ∧
  (ignoredDirectories (advancedSettings (handleRemoveDirectory dir st))
     `sublist_of` ignoredDirectories (advancedSettings st)) ∧
  (dir ∉ ignoredDirectories (advancedSettings st) →
   ignoredDirectories (advancedSettings (handleRemoveDirectory dir st))
   = ignoredDirectories (advancedSettings st)).
Proof.
  cbn [handleRemoveDirectory advancedSettings ignoredDirectories]. split_and!.
  - rewrite filter_other_elem. tauto.
  - intros d Hd. rewrite filter_other_elem. tauto.
  - apply filter_other_sublist.
  - apply filter_other_id.
Qed.

Lemma directoriesToAdd_single dir :
  JS.trim dir = dir → dir ≠ "" → JS.includes dir "," = false →
  directoriesToAdd dir = [dir].
Proof.
  intros Htrim Hne Hcomma. unfold directoriesToAdd.
  rewrite (split_no_separator "," dir Hcomma). simpl. rewrite Htrim.
  by destruct dir.
Qed.

(** X6: adding one rule that is new (a trimmed, non-empty text without
    comma) and removing it again gives back the list as it was, with the
    input box emptied. *)
Theorem add_then_remove_restores (dir : string) (st : PanelState) :
  dir ∉ ignoredDirectories (advancedSettings st) →
  JS.trim dir = dir → dir ≠ "" → JS.includes dir "," = false →
  handleRemoveDirectory dir (handleAddDirectory (typeDirectory dir st))
  = typeDirectory "" st.
Proof.
  intros Hfresh Htrim Hne Hcomma.
  pose proof (directoriesToAdd_single dir Htrim Hne Hcomma) as Hparse.
  unfold handleAddDirectory. cbn [typeDirectory newDirectory advancedSettings].
  rewrite Htrim, Hparse. destruct dir as [|c dir]; [done|].
  cbn [JS.truthyString negb length Nat.eqb foldl].
  unfold handleRemoveDirectory, typeDirectory, pushIfNew.
  cbn [advancedSettings ignoredDirectories isExpanded newDirectory].
  rewrite bool_decide_eq_false_2 by done.
  rewrite List.filter_app, filter_other_id by done. simpl.
  rewrite Ascii.eqb_refl, String.eqb_refl. simpl. rewrite app_nil_r.
  by destruct st as [[dirs expanded] input].
Qed.

Lemma add_then_remove_example :
  handleRemoveDirectory "news"
    (handleAddDirectory (typeDirectory "news" (Scenario2.panel ["work"] "")))
  = typeDirectory "" (Scenario2.panel ["work"] "").
Proof.
  apply add_then_remove_restores; try done.
  intros [=]%list_elem_of_singleton.
Defined.

(** *** Rules and the catalog *)

Lemma isPathIgnored_true rules p :
  isPathIgnored rules p = true ↔ ∃ d, d ∈ rules ∧ dirMatches p d = true.
Proof. unfold isPathIgnored. apply existsb_elem_of. Qed.

Lemma processFile_more_rules settings rules1 rules2 vault f :
  (∀ p, isPathIgnored rules1 p = true → isPathIgnored rules2 p = true) →
  processFile settings rules2 vault f = None ∨
  processFile settings rules2 vault f = processFile settings rules1 vault f.
Proof.
  intros Hmono. unfold processFile.
  destruct (isPathIgnored rules2 (default "" (parentPath f))) eqn:H2; [by left|].
  destruct (isPathIgnored rules1 (default "" (parentPath f))) eqn:H1; [|by right].
  apply Hmono in H1. congruence.
Qed.

Lemma loadArticles_more_rules settings rules1 rules2 vault :
  (∀ p, isPathIgnored rules1 p = true → isPathIgnored rules2 p = true) →
  loadArticles settings rules2 vault `sublist_of` loadArticles settings rules1 vault.
Proof.
  intros Hmono. unfold loadArticles.
  induction (markdownFiles vault) as [|f files IH]; simpl; [constructor|].
  destruct (processFile_more_rules settings rules1 rules2 vault f Hmono) as [-> | ->].
  - destruct (processFile settings rules1 vault f); [by apply sublist_cons|done].
  - destruct (processFile settings rules1 vault f); [by apply sublist_skip|done].
Qed.

(** X7: adding rules can only hide records and removing or clearing rules
    can only bring records back: a path ignored before an addition is still
    ignored after it, a path ignored after a removal was ignored before, no
    path is ignored after "clear all"; and the catalog of a refresh under
    the longer rule list is, in order, a sub-list of the catalog under the
    shorter one. *)
Theorem exclusion_edits_are_monotone settings vault (dir : string) (st : PanelState) :
  (∀ p, isPathIgnored (ignoredDirectories (advancedSettings st)) p = true →
        isPathIgnored (ignoredDirectories (advancedSettings (handleAddDirectory st))) p
        = true) ∧
  (∀ p, isPathIgnored
          (ignoredDirectories (advancedSettings (handleRemoveDirectory dir st))) p = true →
        isPathIgnored (ignoredDirectories (advancedSettings st)) p = true) ∧
  (∀ p, isPathIgnored
          (ignoredDirectories (advancedSettings (handleClearAllDirectories st))) p
        = false) ∧
  (loadArticles settings
     (ignoredDirectories (advancedSettings (handleAddDirectory st))) vault
   `sublist_of`
   loadArticles settings (ignoredDirectories (advancedSettings st)) vault) ∧
  (loadArticles settings (ignoredDirectories (advancedSettings st)) vault
   `sublist_of`
   loadArticles settings
     (ignoredDirectories (advancedSettings (handleRemoveDirectory dir st))) vault) ∧
  (loadArticles settings (ignoredDirectories (advancedSettings st)) vault
   `sublist_of`
   loadArticles settings
     (ignoredDirectories (advancedSettings (handleClearAllDirectories st))) vault).
Proof.
  assert (∀ p, isPathIgnored (ignoredDirectories (advancedSettings st)) p = true →
               isPathIgnored
                 (ignoredDirectories (advancedSettings (handleAddDirectory st))) p
               = true) as Hadd.
  { intros p. rewrite !isPathIgnored_true, handleAddDirectory_list.
    intros (d & Hd & Hm). exists d. split; [|done]. apply elem_of_app. by left. }
  assert (∀ p, isPathIgnored
                 (ignoredDirectories (advancedSettings (handleRemoveDirectory dir st))) p
               = true →
               isPathIgnored (ignoredDirectories (advancedSettings st)) p = true) as Hrem.
  { intros p. rewrite !isPathIgnored_true.
    cbn [handleRemoveDirectory advancedSettings ignoredDirectories].
    intros (d & Hd & Hm). exists d. split; [|done].
    by apply filter_other_elem in Hd as [? _]. }
  split_and!; try done.
  - by apply loadArticles_more_rules.
  - by apply loadArticles_more_rules.
  - by apply loadArticles_more_rules.
Qed.

(** *** Records of a refresh pass *)

Lemma processFile_Some_inv settings ignored vault f a :
  processFile settings ignored vault f = Some a →
  ∃ md fm text ts,
    isPathIgnored ignored (default "" (parentPath f)) = false ∧
    fileCache vault !! filePath f = Some md ∧
    frontmatter md = Some fm ∧
    (0 <? size (collectUrls (propertyNames settings) fm))%nat = true ∧
    contents vault !! filePath f = Some text ∧
    processFrontmatterTags fm settings = Some ts ∧
    a = {| title := basename f;
           urls := collectUrls (propertyNames settings) fm;
           path := filePath f;
           date := ctime f;
           allTags := JS.unique (ts ++ processContentTags (tags md));
           frontmatterTags := ts;
           contentTags := processContentTags (tags md);
           articleBasename := basename f;
           content := text;
           read := readFlag settings fm |}.
Proof.
  unfold processFile.
  destruct (isPathIgnored ignored (default "" (parentPath f))); [done|].
  destruct (fileCache vault !! filePath f) as [md|]; [|done]. simpl.
  destruct (frontmatter md) as [fm|] eqn:Hfm; [|done]. simpl.
  destruct (0 <? size _)%nat eqn:Hsize; [|done].
  destruct (contents vault !! filePath f) as [text|]; [|done]. simpl.
  destruct (processFrontmatterTags fm settings) as [ts|] eqn:Hts; [|done]. simpl.
  intros [= <-]. exists md, fm, text, ts. by rewrite Hts.
Qed.

Lemma storedValue_Some_inv w v :
  storedValue w = Some v →
  truthy v = true ∧
  match v with
  | VArr items => items ≠ [] ∧ Forall (λ item, ∃ s, item = VStr s ∧ JS.trim s ≠ "") items
  | _ => v = w
  end.
Proof.
  unfold storedValue. destruct (truthy w) eqn:Hw; [|done].
  destruct w; try (intros [= <-]; by split).
  destruct (List.filter isNonBlankString items) as [|i kept] eqn:Hkept; [done|].
  intros [= <-]. split; [done|]. split; [done|]. rewrite <- Hkept.
  apply Forall_forall. intros item Hitem%list_elem_of_In.
  apply filter_In in Hitem as [_ Hitem].
  destruct item; try done. exists s. split; [done|].
  simpl in Hitem. by destruct (String.eqb_spec (JS.trim s) "").
Qed.

(** X8: every record of a refresh pass has a non-empty [urls] object; its
    keys are configured property names, every value is truthy, and a value
    that is an array is a non-empty array of strings that are not blank. *)
Theorem loaded_record_urls settings ignored vault (a : Article) :
  a ∈ loadArticles settings ignored vault →
  urls a ≠ ∅ ∧
  ∀ k v, urls a !! k = Some v →
    k ∈ propertyNames settings ∧
    truthy v = true ∧
    match v with
    | VArr items =>
        items ≠ [] ∧ Forall (λ item, ∃ s, item = VStr s ∧ JS.trim s ≠ "") items
    | _ => True
    end.
Proof.
  intros (f & _ & Hf)%list_elem_of_omap.
  apply processFile_Some_inv in Hf
    as (md & fm & text & ts & _ & _ & _ & Hsize & _ & _ & ->).
  cbn [urls]. split.
  - intros Hempty. rewrite Hempty, map_size_empty in Hsize. done.
  - intros k v. rewrite collectUrls_lookup. case_bool_decide as Hk; [|done].
    destruct Hk as [Hk _].
    destruct (getProperty fm k) as [w|]; [|done]. simpl.
    intros [Ht Hshape]%storedValue_Some_inv. split_and!; [done..|].
    by destruct v.
Qed.

Lemma loaded_record_urls_example :
  urls (Scenario.article "a" ["news"; "ai"] false) ≠ ∅.
Proof.
  refine (proj1 (loaded_record_urls Scenario.sourceSettings []
                   (Scenario.vaultOf Scenario.newsClip false) _ _)).
  vm_compute. left.
Defined.

Lemma loadArticles_paths settings ignored vault :
  map path (loadArticles settings ignored vault)
  `sublist_of` map filePath (markdownFiles vault).
Proof.
  unfold loadArticles.
  induction (markdownFiles vault) as [|f files IH]; simpl; [constructor|].
  destruct (processFile settings ignored vault f) as [a|] eqn:Hf.
  - apply processFile_Some_inv in Hf as (? & ? & ? & ? & _ & _ & _ & _ & _ & _ & ->).
    simpl. by apply sublist_skip.
  - by apply sublist_cons.
Qed.

(** X9: the records of a refresh pass come in the order of the files, at
    most one per file, each under the path of its file; when the files have
    distinct paths, so have the records. *)
Theorem loaded_records_follow_files settings ignored vault :
  (map path (loadArticles settings ignored vault)
   `sublist_of` map filePath (markdownFiles vault)) ∧
  (length (loadArticles settings ignored vault) ≤ length (markdownFiles vault))%nat ∧
  (∀ a, a ∈ loadArticles settings ignored vault →
        ∃ f, f ∈ markdownFiles vault ∧ path a = filePath f ∧
             title a = basename f ∧ date a = ctime f ∧
             contents vault !! filePath f = Some (content a)) ∧
  (NoDup (map filePath (markdownFiles vault)) →
   NoDup (map path (loadArticles settings ignored vault))).
Proof.
  pose proof (loadArticles_paths settings ignored vault) as Hsub.
  split_and!.
  - done.
  - apply sublist_length in Hsub. by rewrite !length_map in Hsub.
  - intros a (f & Hin & Hf)%list_elem_of_omap. exists f. split; [done|].
    apply processFile_Some_inv in Hf
      as (? & ? & ? & ? & _ & _ & _ & _ & Htext & _ & ->). by simpl.
  - intros Hnd. by eapply sublist_NoDup.
Qed.

Lemma loaded_records_follow_files_example :
  NoDup (map path (loadArticles Scenario.sourceSettings []
                     (Scenario.vaultOf Scenario.newsClip false))).
Proof.
  apply (proj2 (proj2 (proj2 (loaded_records_follow_files Scenario.sourceSettings []
                                (Scenario.vaultOf Scenario.newsClip false))))).
  apply NoDup_singleton.
Defined.

Lemma mapM_asString_None items :
  mapM asString items = None ↔
  existsb (λ item, match item with VStr _ => false | _ => true end) items = true.
Proof.
  rewrite existsb_elem_of. split.
  - intros H%mapM_None_1. apply Exists_exists in H as (item & Hin & Hnone).
    exists item. split; [done|]. by destruct item.
  - intros (item & Hin & Hitem). apply mapM_None_2, Exists_exists.
    exists item. split; [done|]. by destruct item.
Qed.

(** X10: the front-matter tag normaliser throws exactly when front-matter
    tags are enabled and the [tags] value is truthy but neither a string nor
    an array of strings (a number, [true], an array with a non-string
    entry); a document with such a value yields no record, whatever its
    source properties, while with front-matter tags disabled the normaliser
    never throws. *)
Theorem malformed_tags_drop_document settings (fm : FrontMatter) :
  (processFrontmatterTags fm settings = None ↔
   includeFrontmatterTags settings = true ∧
   ∃ v, fm !! "tags" = Some v ∧ malformedTags v = true) ∧
  (includeFrontmatterTags settings = false → processFrontmatterTags fm settings = Some []) ∧
  (∀ ignored vault file md,
     fileCache vault !! filePath file = Some md → frontmatter md = Some fm →
     processFrontmatterTags fm settings = None →
     processFile settings ignored vault file = None).
Proof.
  split_and!.
  - unfold processFrontmatterTags, malformedTags, truthyProperty.
    destruct (includeFrontmatterTags settings); simpl; cycle 1.
    { split; [done|]. by intros [? _]. }
    destruct (fm !! "tags") as [v|]; simpl; cycle 1.
    { split; [done|]. by intros (_ & ? & ? & _). }
    destruct (truthy v) eqn:Hv; simpl; cycle 1.
    { split; [done|]. intros (_ & ? & [= <-] & H). by rewrite Hv in H. }
    destruct v as [|b|n|s|items|fields|member]; simpl in *.
    + done.
    + split; [|done]. intros _. split; [done|]. exists (VBool b). by rewrite Hv.
    + split; [|done]. intros _. split; [done|]. exists (VNum n). simpl. by rewrite Hv.
    + split; [done|]. intros (_ & ? & [= <-] & H). by rewrite andb_false_r in H.
    + destruct (mapM asString items) as [l|] eqn:Hm; simpl.
      * split; [done|]. intros (_ & ? & [= <-] & H).
        apply mapM_asString_None in H. congruence.
      * split; [|done]. intros _. split; [done|]. eexists. split; [done|].
        by apply mapM_asString_None.
    + split; [|done]. intros _. split; [done|]. by exists (VObj fields).
    + split; [|done]. intros _. split; [done|]. by exists (VBuiltin member).
  - intros Hoff. unfold processFrontmatterTags. by rewrite Hoff.
  - intros ignored vault file md Hmd Hfm Hnone. unfold processFile.
    destruct (isPathIgnored ignored _); [done|].
    rewrite Hmd. simpl. rewrite Hfm. simpl.
    destruct (0 <? size _)%nat; [|done].
    destruct (contents vault !! filePath file); [|done]. simpl.
    by rewrite Hnone.
Qed.

Lemma malformed_tags_example :
  loadArticles Scenario.sourceSettings [] (Scenario.vaultOf Scenario2.numericTags false)
  = [].
Proof.
  unfold loadArticles. simpl.
  rewrite (proj2 (proj2 (malformed_tags_drop_document Scenario.sourceSettings
                           Scenario2.numericTags))
             [] (Scenario.vaultOf Scenario2.numericTags false) Scenario.clipFile
             {| frontmatter := Some Scenario2.numericTags; tags := None |}
             eq_refl eq_refl eq_refl).
  reflexivity.
Defined.

(** *** The merged tag list *)

Lemma filter_filter_andb {A} (f g : A → bool) (l : list A) :
  List.filter f (List.filter g l) = List.filter (λ x, g x && f x) l.
Proof.
  induction l as [|x l IH]; simpl; [done|].
  destruct (g x); simpl; [|done]. destruct (f x); by rewrite IH.
Qed.

Lemma uniqueFrom_filter seen l :
  JS.uniqueFrom seen l
  = List.filter (λ t, negb (bool_decide (t ∈ seen))) (JS.unique l).
Proof.
  induction seen as [|x seen IH].
  - unfold JS.unique. induction (JS.uniqueFrom [] l) as [|y u IHu]; [done|].
    cbn [List.filter].
    rewrite bool_decide_eq_false_2 by apply not_elem_of_nil. simpl. by f_equal.
  - rewrite uniqueFrom_cons_seen, IH, filter_filter_andb.
    apply filter_ext. intros t.
    destruct (String.eqb_spec t x) as [->|Hne].
    + rewrite (bool_decide_eq_true_2 (x ∈ x :: seen)) by left. simpl. apply andb_false_r.
    + rewrite andb_true_r. f_equal. apply bool_decide_ext.
      rewrite elem_of_cons. naive_solver.
Qed.

Lemma uniqueFrom_app seen l1 l2 :
  JS.uniqueFrom seen (l1 ++ l2)
  = JS.uniqueFrom seen l1 ++ JS.uniqueFrom (l1 ++ seen) l2.
Proof.
  revert seen. induction l1 as [|x l1 IH]; intros seen; simpl; [done|].
  case_bool_decide as Hx.
  - rewrite IH. f_equal. apply uniqueFrom_ext. intros z.
    rewrite elem_of_cons, !elem_of_app. naive_solver.
  - simpl. f_equal. rewrite IH. f_equal. apply uniqueFrom_ext. intros z.
    rewrite elem_of_cons, !elem_of_app, elem_of_cons. tauto.
Qed.

(** X11: in a record of a refresh pass the merged tag list is the
    front-matter tags, each once and in order, followed by the content tags
    that are not front-matter tags, each once and in order; merging it again
    changes nothing. *)
Theorem merged_tags_frontmatter_first settings ignored vault (a : Article) :
  a ∈ loadArticles settings ignored vault →
  allTags a
  = JS.unique (frontmatterTags a)
    ++ List.filter (λ t, negb (bool_decide (t ∈ frontmatterTags a)))
         (JS.unique (contentTags a)) ∧
  JS.unique (allTags a) = allTags a.
Proof.
  intros (f & _ & Hf)%list_elem_of_omap.
  apply processFile_Some_inv in Hf
    as (md & fm & text & ts & _ & _ & _ & _ & _ & _ & ->).
  cbn [allTags frontmatterTags contentTags]. split.
  - unfold JS.unique at 1. rewrite uniqueFrom_app, app_nil_r.
    by rewrite (uniqueFrom_filter ts).
  - apply uniqueFrom_fresh; [apply uniqueFrom_NoDup|].
    intros x _. apply not_elem_of_nil.
Qed.

Lemma merged_tags_example :
  JS.unique (allTags (Scenario.article "a" ["news"; "ai"] false))
  = allTags (Scenario.article "a" ["news"; "ai"] false).
Proof.
  refine (proj2 (merged_tags_frontmatter_first Scenario.sourceSettings []
                   (Scenario.vaultOf Scenario.newsClip false) _ _)).
  vm_compute. left.
Defined.

(** *** Search *)

Lemma lowerChar_hash c : Ascii.eqb (JS.lowerChar c) "#" = Ascii.eqb c "#".
Proof. destruct c as [[] [] [] [] [] [] [] []]; reflexivity. Qed.

Lemma startsWith_hash_cons c s : JS.startsWith (String c s) "#" = Ascii.eqb c "#".
Proof.
  unfold JS.startsWith. cbn [String.prefix]. destruct (ascii_dec "#" c) as [<-|Hne].
  - by rewrite prefix_empty.
  - symmetry. apply Ascii.eqb_neq. congruence.
Qed.

Lemma startsWith_hash_lower t :
  JS.startsWith (JS.toLowerCase t) "#" = JS.startsWith t "#".
Proof.
  destruct t as [|c t]; [done|]. cbn [JS.toLowerCase].
  by rewrite !startsWith_hash_cons, lowerChar_hash.
Qed.

Lemma slice1_lower t : JS.toLowerCase (JS.slice1 t) = JS.slice1 (JS.toLowerCase t).
Proof. by destruct t. Qed.

Lemma existsb_map_compose {A B} (f : B → bool) (g : A → B) (l : list A) :
  existsb f (map g l) = existsb (λ x, f (g x)) l.
Proof. induction l as [|x l IH]; simpl; [done|]. by rewrite IH. Qed.

Lemma matchesSearch_lower term a :
  matchesSearch term a
  = JS.includes (JS.toLowerCase (title a)) (JS.toLowerCase term)
    || existsb (λ tag, JS.includes tag (JS.toLowerCase term))
         (map JS.toLowerCase (allTags a))
    || (JS.startsWith (JS.toLowerCase term) "#"
        && existsb (λ tag, String.eqb tag (JS.slice1 (JS.toLowerCase term)))
             (map JS.toLowerCase (allTags a))).
Proof.
  unfold matchesSearch.
  by rewrite !existsb_map_compose, startsWith_hash_lower, slice1_lower.
Qed.

(** X12: the search does not distinguish upper and lower case, in the term,
    in the title or in the tags: two terms that agree in lower case accept
    the same records, and records whose titles and tag lists agree in lower
    case are accepted alike. *)
Theorem search_ignores_case (t1 t2 : string) (a1 a2 : Article) :
  JS.toLowerCase t1 = JS.toLowerCase t2 →
  JS.toLowerCase (title a1) = JS.toLowerCase (title a2) →
  map JS.toLowerCase (allTags a1) = map JS.toLowerCase (allTags a2) →
  matchesSearch t1 a1 = matchesSearch t2 a2.
Proof.
  intros Ht Htitle Htags. rewrite !matchesSearch_lower. by rewrite Ht, Htitle, Htags.
Qed.

Lemma search_ignores_case_example :
  matchesSearch "#News" (Scenario.article "Daily" ["news"] false)
  = matchesSearch "#news" (Scenario.article "daily" ["NEWS"] false).
Proof. by apply search_ignores_case. Defined.

(** X13: clicking a tag chip of a record of the catalog sets the term to
    '#' followed by the tag; that search always accepts the record itself,
    so the row stays unless a read-state toggle hides it. *)
Theorem tag_chip_search_keeps_record settings ignored vault (a : Article) (tag : string) :
  a ∈ loadArticles settings ignored vault →
  tag ∈ frontmatterTags a ∨ tag ∈ contentTags a →
  matchesSearch (String "#" tag) a = true ∧
  ∀ h s, keepArticle h s (String "#" tag) a
         = negb (h && read a) && negb (s && negb (read a)).
Proof.
  intros (f & _ & Hf)%list_elem_of_omap Htag.
  apply processFile_Some_inv in Hf
    as (md & fm & text & ts & _ & _ & _ & _ & _ & _ & ->).
  cbn [frontmatterTags contentTags] in Htag.
  assert (matchesSearch (String "#" tag)
            {| title := basename f;
               urls := collectUrls (propertyNames settings) fm;
               path := filePath f; date := ctime f;
               allTags := JS.unique (ts ++ processContentTags (tags md));
               frontmatterTags := ts;
               contentTags := processContentTags (tags md);
               articleBasename := basename f; content := text;
               read := readFlag settings fm |} = true) as Hm.
  { unfold matchesSearch. cbn [allTags JS.slice1].
    rewrite startsWith_hash_cons, Ascii.eqb_refl.
    rewrite !orb_true_iff. right. simpl. apply existsb_elem_of.
    exists tag. split; [|apply String.eqb_refl].
    unfold JS.unique. rewrite uniqueFrom_elem, elem_of_app.
    split; [done|apply not_elem_of_nil]. }
  split; [done|]. intros h s.
  by rewrite keepArticle_conjunction, Hm, andb_true_r.
Qed.

Lemma tag_chip_example :
  matchesSearch "#ai" (Scenario.article "a" ["news"; "ai"] false) = true.
Proof.
  refine (proj1 (tag_chip_search_keeps_record Scenario.sourceSettings []
                   (Scenario.vaultOf Scenario.newsClip false)
                   (Scenario.article "a" ["news"; "ai"] false) "ai" _ _)).
  - vm_compute. left.
  - left. simpl. apply list_elem_of_further, list_elem_of_here.
Defined.

(** *** The sort is a stable sort *)

Section StableSort.

Context {A : Type} (cmp : A → A → Z).

Lemma filter_insertSorted (P : A → bool) a l :
  (∀ x, P a = true → P x = true → cmp a x ≤ 0) →
  List.filter P (JS.insertSorted cmp a l)
  = if P a then a :: List.filter P l else List.filter P l.
Proof.
  intros Hclass. induction l as [|x l IH]; simpl; [done|].
  destruct (Z.leb_spec (cmp a x) 0) as [Hle|Hgt]; simpl; [done|].
  rewrite IH. destruct (P a) eqn:Ha, (P x) eqn:Hx; try done.
  specialize (Hclass x eq_refl Hx). lia.
Qed.

Lemma filter_sort (P : A → bool) l :
  (∀ a x, P a = true → P x = true → cmp a x ≤ 0) →
  List.filter P (JS.sort cmp l) = List.filter P l.
Proof.
  intros Hclass. induction l as [|a l IH]; simpl; [done|].
  rewrite filter_insertSorted by (intros x; apply Hclass). by rewrite IH.
Qed.

Hypothesis cmp_flip : ∀ a b, 0 < cmp a b → cmp b a ≤ 0.
Hypothesis cmp_trans : ∀ a b c, cmp a b ≤ 0 → cmp b c ≤ 0 → cmp a c ≤ 0.

Lemma insertSorted_sorted a l :
  StronglySorted (λ x y, cmp x y ≤ 0) l →
  StronglySorted (λ x y, cmp x y ≤ 0) (JS.insertSorted cmp a l).
Proof.
  induction 1 as [|x l Hl IH Hx]; simpl.
  - by repeat constructor.
  - destruct (Z.leb_spec (cmp a x) 0) as [Hle|Hgt].
    + constructor; [by constructor|]. constructor; [done|].
      eapply Forall_impl; [exact Hx|]. intros y Hy. by eapply cmp_trans.
    + constructor; [done|].
      rewrite insertSorted_Permutation. constructor; [by apply cmp_flip|done].
Qed.

Lemma sort_sorted l : StronglySorted (λ x y, cmp x y ≤ 0) (JS.sort cmp l).
Proof.
  induction l as [|a l IH]; simpl; [constructor|]. by apply insertSorted_sorted.
Qed.

End StableSort.

Lemma StronglySorted_lookup {A} (R : A → A → Prop) l i j a b :
  StronglySorted R l → (i < j)%nat → l !! i = Some a → l !! j = Some b → R a b.
Proof.
  intros Hl. revert i j. induction Hl as [|x l Hl IH Hx]; intros i j Hij Hi Hj; [done|].
  destruct j as [|j]; [lia|]. simpl in Hj.
  destruct i as [|i]; simpl in Hi.
  - injection Hi as <-. rewrite Forall_forall in Hx. apply Hx.
    by eapply list_elem_of_lookup_2.
  - apply (IH i j); [lia|done..].
Qed.

(** X14: sorting by date is a stable sort: the result is a rearrangement of
    the catalog in which, ascending, no record comes before one with a
    smaller date (descending: a larger date), and the records of one date
    keep the order they had. *)
Theorem sort_by_date_sorted_and_stable lc (l : list Article) :
  (sortedArticles lc (byDate Asc) l ≡ₚ l ∧
   (∀ i j a b, (i < j)%nat →
      sortedArticles lc (byDate Asc) l !! i = Some a →
      sortedArticles lc (byDate Asc) l !! j = Some b → date a ≤ date b) ∧
   (∀ d, List.filter (λ a, date a =? d) (sortedArticles lc (byDate Asc) l)
         = List.filter (λ a, date a =? d) l)) ∧
  (sortedArticles lc (byDate Desc) l ≡ₚ l ∧
   (∀ i j a b, (i < j)%nat →
      sortedArticles lc (byDate Desc) l !! i = Some a →
      sortedArticles lc (byDate Desc) l !! j = Some b → date b ≤ date a) ∧
   (∀ d, List.filter (λ a, date a =? d) (sortedArticles lc (byDate Desc) l)
         = List.filter (λ a, date a =? d) l)).
Proof.
  unfold sortedArticles. split; split_and!.
  - apply sort_Permutation.
  - intros i j a b Hij Ha Hb.
    assert (StronglySorted (λ x y, compareArticles lc (byDate Asc) x y ≤ 0)
              (JS.sort (compareArticles lc (byDate Asc)) l)) as Hsorted.
    { apply sort_sorted; unfold compareArticles; simpl; intros; lia. }
    pose proof (StronglySorted_lookup _ _ i j a b Hsorted Hij Ha Hb) as Hab.
    unfold compareArticles in Hab. simpl in Hab. lia.
  - intros d. apply filter_sort. intros a x Ha Hx.
    unfold compareArticles. simpl. lia.
  - apply sort_Permutation.
  - intros i j a b Hij Ha Hb.
    assert (StronglySorted (λ x y, compareArticles lc (byDate Desc) x y ≤ 0)
              (JS.sort (compareArticles lc (byDate Desc)) l)) as Hsorted.
    { apply sort_sorted; unfold compareArticles; simpl; intros; lia. }
    pose proof (StronglySorted_lookup _ _ i j a b Hsorted Hij Ha Hb) as Hab.
    unfold compareArticles in Hab. simpl in Hab. lia.
  - intros d. apply filter_sort. intros a x Ha Hx.
    unfold compareArticles. simpl. lia.
Qed.

(** X15: a click on a column header selects that column; it sorts ascending
    unless the column was already selected ascending, so repeated clicks on
    one header alternate between ascending and descending, and a click on
    another header always starts ascending. *)
Theorem handleSort_alternates (k : SortKey) (c : SortConfig) :
  key (handleSort k c) = k ∧
  (key c ≠ k → direction (handleSort k c) = Asc) ∧
  direction (handleSort k (handleSort k c)) ≠ direction (handleSort k c) ∧
  handleSort k (handleSort k (handleSort k c)) = handleSort k c.
Proof.
  destruct c as [k0 d0]. split_and!.
  - done.
  - simpl. intros Hne. by destruct k0, k.
  - by destruct k0, k, d0.
  - by destruct k0, k, d0.
Qed.

(** *** The counts of the header *)

Lemma matchesSearch_empty a : matchesSearch "" a = true.
Proof. unfold matchesSearch. simpl JS.toLowerCase. by rewrite includes_empty. Qed.

Lemma filter_Permutation_length {A} (p : A → bool) (l l' : list A) :
  l ≡ₚ l' → length (List.filter p l) = length (List.filter p l').
Proof.
  induction 1 as [|x l l' _ IH|x y l|l l' l'' _ IH1 _ IH2]; simpl.
  - done.
  - destruct (p x); simpl; by rewrite IH.
  - by destruct (p x), (p y).
  - by rewrite IH1.
Qed.

Lemma filteredArticles_length lc sc h s term l :
  length (filteredArticles lc sc h s term l)
  = length (List.filter (keepArticle h s term) l).
Proof.
  unfold filteredArticles, sortedArticles.
  apply filter_Permutation_length, sort_Permutation.
Qed.

(** X16: the numbers of the header.  The displayed list is never longer
    than the catalog.  With an empty search, "hide" on shows all but the
    read records and "show only" on shows exactly the read ones.  With
    "show only" on, the number announced as "unchecked notes hidden" counts
    the unread records plus the read records the search rejects. *)
Theorem header_counts lc sc term (l : list Article) :
  (∀ h s, (length (filteredArticles lc sc h s term l) ≤ length l)%nat) ∧
  completedCount l + Z.of_nat (length (filteredArticles lc sc true false "" l))
    = Z.of_nat (length l) ∧
  Z.of_nat (length (filteredArticles lc sc false true "" l)) = completedCount l ∧
  hiddenCount l (filteredArticles lc sc false true term l)
    = Z.of_nat (length (List.filter (λ a, negb (read a)) l))
      + Z.of_nat (length (List.filter (λ a, read a && negb (matchesSearch term a)) l)).
Proof.
  unfold completedCount, hiddenCount. rewrite !filteredArticles_length. split_and!.
  - intros h s. rewrite filteredArticles_length. apply filter_length_le.
  - induction l as [|a l IH]; simpl; [done|].
    rewrite keepArticle_conjunction, matchesSearch_empty.
    destruct (read a); simpl in *; lia.
  - induction l as [|a l IH]; simpl; [done|].
    rewrite keepArticle_conjunction, matchesSearch_empty.
    destruct (read a); simpl in *; lia.
  - induction l as [|a l IH]; simpl; [done|].
    rewrite keepArticle_conjunction.
    destruct (read a), (matchesSearch term a); simpl in *; lia.
Qed.

(** *** Parsed settings *)

Lemma includes_trimStart c s :
  JS.includes s (String c "") = false → JS.includes (JS.trimStart s) (String c "") = false.
Proof.
  induction s as [|a s IH]; [done|]. cbn [JS.trimStart].
  destruct (Ascii.is_space a); [|done].
  rewrite includes_char_cons, orb_false_iff. intros [_ Hs]. by apply IH.
Qed.

Lemma includes_trimEnd c s :
  JS.includes s (String c "") = false → JS.includes (JS.trimEnd s) (String c "") = false.
Proof.
  induction s as [|a s IH]; [done|].
  rewrite includes_char_cons, orb_false_iff. intros [Ha Hs]. cbn [JS.trimEnd].
  specialize (IH Hs). destruct (JS.trimEnd s) as [|b t].
  - destruct (Ascii.is_space a); [done|]. by rewrite includes_char_cons, Ha.
  - by rewrite includes_char_cons, Ha, IH.
Qed.

Lemma trimEnd_idempotent s : JS.trimEnd (JS.trimEnd s) = JS.trimEnd s.
Proof.
  induction s as [|a s IH]; [done|]. cbn [JS.trimEnd].
  destruct (JS.trimEnd s) as [|b t] eqn:Ht.
  - destruct (Ascii.is_space a) eqn:Ha; [done|]. cbn [JS.trimEnd]. by rewrite Ha.
  - change (JS.trimEnd (String a (String b t)))
      with (match JS.trimEnd (String b t) with
            | "" => if Ascii.is_space a then "" else String a ""
            | r' => String a r'
            end).
    by rewrite IH.
Qed.

Lemma trimEnd_head a r :
  JS.trimEnd (String a r) = "" ∨ ∃ r', JS.trimEnd (String a r) = String a r'.
Proof.
  cbn [JS.trimEnd]. destruct (JS.trimEnd r); [|right; eauto].
  destruct (Ascii.is_space a); [by left|right; eauto].
Qed.

Lemma trim_idempotent s : JS.trim (JS.trim s) = JS.trim s.
Proof.
  unfold JS.trim.
  destruct (trimStart_head s) as [->|(c & r & -> & Hc)]; [done|].
  destruct (trimEnd_head c r) as [->|[r' Hr]]; [done|].
  assert (JS.trimStart (JS.trimEnd (String c r)) = JS.trimEnd (String c r)) as ->.
  { rewrite Hr. cbn [JS.trimStart]. by rewrite Hc. }
  apply trimEnd_idempotent.
Qed.

Lemma trimmed_pieces_clean (keep : string → bool) input :
  (∀ s, keep s = true → s ≠ "") →
  Forall (λ n, n ≠ "" ∧ JS.trim n = n ∧ JS.includes n "," = false)
    (List.filter keep (map JS.trim (JS.split "," input))).
Proof.
  intros Hkeep. apply Forall_forall. intros n Hn%list_elem_of_In.
  apply filter_In in Hn as [Hn Hk]. apply in_map_iff in Hn as (piece & <- & Hpiece).
  split_and!.
  - by apply Hkeep.
  - apply trim_idempotent.
  - unfold JS.trim. apply includes_trimEnd, includes_trimStart.
    pose proof (split_pieces_no_separator "," input) as Hall.
    rewrite Forall_forall in Hall. by apply Hall, list_elem_of_In.
Qed.

(** X17: the configured source property names and the rules taken from the
    exclusion input box are non-empty, have no white space at either end
    and contain no comma. *)
Theorem parsed_names_are_clean (settings : Settings) (input : string) :
  Forall (λ n, n ≠ "" ∧ JS.trim n = n ∧ JS.includes n "," = false)
    (propertyNames settings) ∧
  Forall (λ n, n ≠ "" ∧ JS.trim n = n ∧ JS.includes n "," = false)
    (directoriesToAdd input).
Proof.
  split.
  - apply trimmed_pieces_clean. by intros [|c s].
  - apply trimmed_pieces_clean. by intros [|c s].
Qed.

(** *** The folder column *)

Lemma join_split sep s : join sep (JS.split sep s) = s.
Proof.
  induction s as [|c s IH]; [done|]. cbn [JS.split].
  pose proof (split_nonempty sep s) as Hlen.
  destruct (Ascii.eqb_spec c sep) as [->|Hne].
  - destruct (JS.split sep s) as [|h t] eqn:Hs; [simpl in Hlen; lia|].
    change (join sep ("" :: h :: t)) with ("" +:+ String sep (join sep (h :: t))).
    by rewrite IH.
  - destruct (JS.split sep s) as [|h t] eqn:Hs; [simpl in Hlen; lia|].
    destruct t as [|h' t].
    + simpl in *. by rewrite IH.
    + change (join sep (String c h :: h' :: t))
        with (String c h +:+ String sep (join sep (h' :: t))).
      change (join sep (h :: h' :: t))
        with (h +:+ String sep (join sep (h' :: t))) in IH.
      by rewrite <- IH.
Qed.

(** X18: joining the segments of a string with '/' gives the string back;
    so the folder shown (and copied) for a path [dir/name] is [dir], and it
    is "/" for a note at the top level, also when the path starts with a
    slash. *)
Theorem folderText_is_parent (dir name : string) :
  join "/" (JS.split "/" dir) = dir ∧
  (JS.includes name "/" = false →
   folderText (dir +:+ "/" +:+ name) = (if JS.truthyString dir then dir else "/") ∧
   folderText name = "/").
Proof.
  split; [apply join_split|]. intros Hname. unfold folderText. split.
  - change (dir +:+ "/" +:+ name) with (dir +:+ String "/" name).
    rewrite split_app, (split_no_separator "/" name Hname), removelast_last.
    by rewrite join_split.
  - by rewrite (split_no_separator "/" name Hname).
Qed.

Lemma folderText_example :
  folderText "Clippings/web/a.md" = "Clippings/web" ∧ folderText "a.md" = "/".
Proof.
  destruct (proj2 (folderText_is_parent "Clippings/web" "a.md") eq_refl) as [Hdir _].
  destruct (proj2 (folderText_is_parent "" "a.md") eq_refl) as [_ Htop].
  by split.
Defined.

(** *** The read checkbox and the next refresh *)

Lemma getProperty_agree (o o' : FrontMatter) k :
  o' !! k = o !! k → getProperty o' k = getProperty o k.
Proof. intros Hk. unfold getProperty. by rewrite Hk. Qed.

Lemma collectUrls_agree names (fm fm' : FrontMatter) :
  (∀ k, k ∈ names → fm' !! k = fm !! k) →
  collectUrls names fm' = collectUrls names fm.
Proof.
  intros Hagree. apply map_eq. intros q. rewrite !collectUrls_lookup.
  case_bool_decide as Hq; [|done]. destruct Hq as [Hq _].
  by rewrite (getProperty_agree fm fm' q) by auto.
Qed.

Lemma processFrontmatterTags_agree (fm fm' : FrontMatter) settings :
  fm' !! "tags" = fm !! "tags" →
  processFrontmatterTags fm' settings = processFrontmatterTags fm settings.
Proof. intros Htags. unfold processFrontmatterTags. by rewrite Htags. Qed.

(** X19: the record a click hands back to the host (the read property set
    to the new value, every other field as it was) is cataloged by the next
    refresh as the record the catalog held before the click with the new
    read value, which is what the click stores in memory, and with the text
    the refresh reads; provided the read property is neither one of the
    source properties nor [tags], and the content tags are as before. *)
Theorem toggle_agrees_with_refresh settings ignored (v v' : Vault) file md
    (fm patched : FrontMatter) isChecked a text' :
  readPropertyName settings ∉ propertyNames settings →
  readPropertyName settings ≠ "tags" →
  patched !! readPropertyName settings = Some (VBool isChecked) →
  (∀ k, k ≠ readPropertyName settings → patched !! k = fm !! k) →
  fileCache v !! filePath file = Some md →
  frontmatter md = Some fm →
  processFile settings ignored v file = Some a →
  fileCache v' !! filePath file = Some {| frontmatter := Some patched; tags := tags md |} →
  contents v' !! filePath file = Some text' →
  processFile settings ignored v' file
  = Some {| title := title a; urls := urls a; path := path a; date := date a;
            allTags := allTags a; frontmatterTags := frontmatterTags a;
            contentTags := contentTags a; articleBasename := articleBasename a;
            content := text'; read := isChecked |}.
Proof.
  intros Hnames Htags Hread Hother Hmd Hfm Ha Hmd' Htext'.
  assert (collectUrls (propertyNames settings) patched
          = collectUrls (propertyNames settings) fm) as Hurls.
  { apply collectUrls_agree. intros k Hk. apply Hother. by intros ->. }
  assert (processFrontmatterTags patched settings = processFrontmatterTags fm settings)
    as Hfmtags.
  { apply processFrontmatterTags_agree, Hother. done. }
  assert (readFlag settings patched = isChecked) as Hflag.
  { unfold readFlag. rewrite (getProperty_lookup _ _ _ Hread). by destruct isChecked. }
  revert Ha. unfold processFile.
  destruct (isPathIgnored ignored (default "" (parentPath file))); [done|].
  rewrite Hmd, Hmd'. simpl. rewrite Hfm. simpl. rewrite Hurls, Htext', Hfmtags, Hflag.
  destruct (0 <? size _)%nat; [|done].
  destruct (contents v !! filePath file) as [text|]; [|done]. simpl.
  destruct (processFrontmatterTags fm settings) as [ts|]; [|done]. simpl.
  by intros [= <-].
Qed.

Lemma toggle_agrees_with_refresh_example :
  processFile Scenario.sourceSettings []
    (Scenario.vaultOf (<["read" := VBool true]> Scenario.newsClip) false) Scenario.clipFile
  = Some (Scenario.article "a" ["news"; "ai"] true).
Proof.
  refine (toggle_agrees_with_refresh Scenario.sourceSettings []
            (Scenario.vaultOf Scenario.newsClip false)
            (Scenario.vaultOf (<["read" := VBool true]> Scenario.newsClip) false)
            Scenario.clipFile {| frontmatter := Some Scenario.newsClip; tags := None |}
            Scenario.newsClip (<["read" := VBool true]> Scenario.newsClip) true
            (Scenario.article "a" ["news"; "ai"] false) "body"
            _ _ eq_refl _ eq_refl eq_refl eq_refl eq_refl eq_refl).
  - intros [=]%list_elem_of_singleton.
  - discriminate.
  - intros k Hk. by rewrite lookup_insert_ne.
Defined.





(** *** Names that every object answers to *)

(** X21: a configured source name that is the name of a member of
    [Object.prototype] other than [__proto__] ([constructor], [toString],
    ...) is found on every front-matter record that has no field of its own
    by that name: the document is cataloged with the inherited member as
    its value, whether or not it has a source property, as soon as it is
    not excluded, its text can be read and its tags are well formed.  The
    name [__proto__] stores nothing, whatever the record holds. *)
Theorem inherited_member_catalogs_document settings ignored vault file md
    (fm : FrontMatter) name :
  name ∈ propertyNames settings →
  name ∈ objectPrototypeMembers → name ≠ "__proto__" →
  fm !! name = None →
  isPathIgnored ignored (default "" (parentPath file)) = false →
  fileCache vault !! filePath file = Some md → frontmatter md = Some fm →
  is_Some (contents vault !! filePath file) →
  is_Some (processFrontmatterTags fm settings) →
  (∃ a, processFile settings ignored vault file = Some a ∧
        urls a !! name = Some (VBuiltin name)) ∧
  (∀ names (fm' : FrontMatter), collectUrls names fm' !! "__proto__" = None).
Proof.
  intros Hname Hmember Hproto Hown Hpath Hmd Hfm Htext Htags.
  assert (getProperty fm name = Some (VBuiltin name)) as Hget.
  { unfold getProperty. by rewrite Hown, bool_decide_eq_true_2. }
  split.
  - destruct (proj2 (processFile_is_Some settings ignored vault file)) as [a Ha].
    { split; [done|]. exists md, fm. split_and!; [done..| |done|done].
      exists name, (VBuiltin name). by split_and!. }
    exists a. split; [done|].
    apply processFile_Some_inv in Ha
      as (md' & fm' & text & ts & _ & Hmd' & Hfm' & _ & _ & _ & ->).
    assert (fm' = fm) as -> by congruence.
    cbn [urls]. by rewrite collectUrls_lookup, bool_decide_eq_true_2, Hget.
  - intros names fm'. rewrite collectUrls_lookup.
    rewrite bool_decide_eq_false_2; [done|]. by intros [_ ?].
Qed.

Lemma inherited_member_example :
  ∃ a, processFile Scenario2.constructorSettings [] (Scenario.vaultOf ∅ false)
         Scenario.clipFile = Some a ∧
       urls a !! "constructor" = Some (VBuiltin "constructor").
Proof.
  refine (proj1 (inherited_member_catalogs_document Scenario2.constructorSettings []
                   (Scenario.vaultOf ∅ false) Scenario.clipFile
                   {| frontmatter := Some ∅; tags := None |} ∅ "constructor"
                   _ _ _ eq_refl eq_refl eq_refl eq_refl _ _)).
  - apply list_elem_of_further, list_elem_of_here.
  - apply list_elem_of_here.
  - discriminate.
  - by eexists.
  - by eexists.
Defined.

(** *** Instances of the properties above *)

Lemma handleRemoveDirectory_example :
  ignoredDirectories (advancedSettings
    (handleRemoveDirectory "news" (Scenario2.panel ["work"] "")))
  = ["work"].
Proof.
  apply (proj2 (proj2 (proj2 (handleRemoveDirectory_removes_rule "news"
                                (Scenario2.panel ["work"] ""))))).
  intros [=]%list_elem_of_singleton.
Defined.

Lemma exclusion_edits_example :
  isPathIgnored
    (ignoredDirectories (advancedSettings
       (handleAddDirectory (Scenario2.panel ["work"] "news"))))
    "work/expenses" = true.
Proof.
  apply (proj1 (exclusion_edits_are_monotone Scenario.settings
                  (Scenario.bareVault false) "news" (Scenario2.panel ["work"] "news"))).
  reflexivity.
Defined.

Lemma handleSort_example :
  direction (handleSort KeyTitle initialSortConfig) = Asc.
Proof.
  apply (proj1 (proj2 (handleSort_alternates KeyTitle initialSortConfig))).
  discriminate.
Defined.

Lemma sort_by_date_example :
  date (Scenario.article "b" [] true) ≤ date (Scenario.article "a" [] false).
Proof.
  apply (proj1 (proj2 (proj1 (sort_by_date_sorted_and_stable Scenario.codeUnitCompare
                                [Scenario.article "b" [] true;
                                 Scenario.article "a" [] false]))) 0%nat 1%nat).
  - lia.
  - reflexivity.
  - reflexivity.
Defined.
